(** * Live classroom poll server: the session state machine of backend/server.js

    A shallow embedding of the socket handlers of [server.js] and of the
    [Student] schema, followed by the properties of the poll life cycle:
    one counted answer per respondent, behaviour under store failures,
    the close-time percentages, presence invariants.

    Modelling conventions.
    - Every handler runs to completion before the next event is taken: the
      development speaks about serial executions.  A call that the source
      does not await ([emitStudentListUpdate()]) and the [disconnect]
      handler triggered by [targetSocket.disconnect(true)] are run at their
      call site.
    - The durable store (MongoDB behind Mongoose) is a pair of collections.
      A store operation may throw; whether it does is read from an oracle:
      one tape of booleans for the reads ([find], [findOne]) and one for the
      writes ([save], [updateOne], [updateMany]), [true] meaning that the
      operation rejects.  A rejected operation stands for a failure of the
      store (lost connection, write error); it leaves the collection
      untouched.  An exhausted tape means success.
    - The validation Mongoose runs before a [save] is modelled apart from
      the oracle: a [Student] document that lacks one of the paths the
      schema declares [required] is refused before the store is contacted.
      [updateOne] and [updateMany] run no validators.
    - A timer is recorded with the delay Node arms: 1 ms when the requested
      delay is below 1 or above 2^31 - 1.
    - JavaScript numbers that hold counts are integers ([Z]); the
      percentages are computed in binary64 as the source does, on the
      executable IEEE 754 specification of the standard library.
    - Messages are well typed: ids and texts are strings, a poll id is an
      ObjectId.  An ObjectId is a natural number drawn from a counter; the
      comparison of [_id.toString()] with a received id is equality.
    - [console.log] and [console.warn] have no effect on the state and are
      left out; the chat relay ([sendMessage]) shares no state with the poll
      machine and is left out. *)

From Stdlib Require Import ZArith List Lia Bool String Ascii.
From Stdlib Require Import Floats.SpecFloat.
Import ListNotations.
Open Scope string_scope.
Open Scope list_scope.
Open Scope Z_scope.

Set Implicit Arguments.

(* ------------------------------------------------------------------ *)
(** * JavaScript numbers *)
(* ------------------------------------------------------------------ *)

Module Js.

(** binary64 *)
Definition prec : Z := 53.
Definition emax : Z := 1024.

Definition number := spec_float.

(** The double nearest to an integer (exact below 2^53). *)
Definition of_int (z : Z) : number :=
  match z with
  | Z0 => S754_zero false
  | Zpos _ => binary_normalize prec emax z 0 false
  | Zneg _ => binary_normalize prec emax z 0 true
  end.

Definition div (x y : number) : number := SFdiv prec emax x y.
Definition mul (x y : number) : number := SFmul prec emax x y.

(** [Math.round]: the integer nearest to [x], ties towards +infinity;
    NaN, the infinities and the zeros are returned as they are. *)
Definition Math_round (x : number) : number :=
  match x with
  | S754_finite s m e =>
      let n := if s then Z.neg m else Z.pos m in
      let r := if 0 <=? e then n * 2 ^ e
               else (2 * n + 2 ^ (- e)) / 2 ^ (1 - e) in
      if r =? 0 then S754_zero s else of_int r
  | _ => x
  end.

(** [Math.round((votes / totalVotes) * 100)], the expression of both the
    live update and the final results. *)
Definition percentage (votes totalVotes : Z) : number :=
  Math_round (mul (div (of_int votes) (of_int totalVotes)) (of_int 100)).

(** The value the expression is meant to produce: 100 * votes / totalVotes
    rounded to the nearest integer (ties upwards), in exact arithmetic. *)
Definition exact_percentage (votes totalVotes : Z) : Z :=
  (200 * votes + totalVotes) / (2 * totalVotes).

(** The same formula read as a JavaScript expression,
    [Math.round(100 * votes / totalVotes)]. *)
Definition rounded_ratio (votes totalVotes : Z) : number :=
  Math_round (div (mul (of_int 100) (of_int votes)) (of_int totalVotes)).

End Js.

(* ------------------------------------------------------------------ *)
(** * Documents *)
(* ------------------------------------------------------------------ *)

Definition ObjectId := nat.

(** models/Student.js *)
Record Student := mkStudent {
  socketId : option string;   (* current Socket.io id, null when offline *)
  studentId : string;         (* persistent id, unique *)
  name : string;
  lastSeen : Z;
  hasAnswered : bool;         (* for the current active poll *)
  kicked : bool
}.

Record PollOption := mkOption {
  text : string;
  isCorrect : bool;
  votes : Z
}.

Inductive PollStatus := active | completed.

(** Modelled from the spec: the Poll schema (models/Poll.js) is not among
    the sources.  The fields are the ones [server.js] reads and writes and
    the spec's data model lists: question, ordered options
    {text, isCorrect, votes}, duration in seconds, status in
    {active, completed}, start time, completion time (absent until closed),
    and the generated record id. *)
Record Poll := mkPoll {
  _id : ObjectId;
  question : string;
  options : list PollOption;
  duration : Z;
  status : PollStatus;
  startTime : Z;
  completedAt : option Z
}.

Definition status_eqb (a b : PollStatus) : bool :=
  match a, b with
  | active, active | completed, completed => true
  | _, _ => false
  end.

(** Payload of the [createPoll] message. *)
Record PollData := mkPollData {
  pd_question : string;
  pd_options : list (string * bool);   (* text, isCorrect *)
  pd_duration : Z
}.

(* ------------------------------------------------------------------ *)
(** * Outbound messages *)
(* ------------------------------------------------------------------ *)

(** An option as it appears in a payload; a field the object literal does
    not carry is [None]. *)
Record OptionView := mkOptionView {
  ov_text : string;
  ov_isCorrect : bool;
  ov_votes : option Z;
  ov_percentage : option Js.number
}.

Record PollView := mkPollView {
  pv_id : ObjectId;
  pv_question : string;
  pv_options : list OptionView;
  pv_duration : Z;
  pv_startTime : Z;
  pv_status : option PollStatus;
  pv_completedAt : option Z
}.

Record PollUpdate := mkPollUpdate {
  pu_poll : PollView;
  pu_totalVoters : option Z;
  pu_answeredCount : Z;
  pu_totalStudents : nat
}.

Record FinalResults := mkFinalResults {
  fr_poll : PollView;
  fr_totalVoters : Z
}.

Inductive Payload :=
| error (message : string)
| newPoll (poll : option PollView) (st : string)
| pollUpdate (u : PollUpdate)
| pollEnded (r : FinalResults)
| studentListUpdate (l : list Student)
| studentKicked_notice (message : string)
| studentKicked_ack (sid : string).

(** [socket.emit] addresses one connection, [io.emit] all of them. *)
Inductive Target := to_socket (sock : string) | to_all.

Definition Message := (Target * Payload)%type.

(** The error notices of the handlers. *)
Definition msg_mismatch := "Authentication mismatch for submitting answer.".
Definition msg_wrong_poll := "No active poll or wrong poll ID.".
Definition msg_already_answered :=
  "You have already answered this poll or are not a valid student.".
Definition msg_invalid_option := "Invalid answer option.".
Definition msg_submit_failed := "Failed to submit answer due to server error.".
Definition msg_already_active :=
  "A poll is already active. Please wait for it to complete or end it.".
Definition msg_create_failed := "Failed to create poll.".
Definition msg_join_failed := "Failed to join session.".
Definition msg_end_failed := "Failed to end poll.".
Definition msg_not_found := "Student not found.".
Definition msg_kick_failed := "Failed to kick student.".
Definition msg_kicked :=
  "You have been removed from this session by the teacher.".

(* ------------------------------------------------------------------ *)
(** * The world: store, process memory, connections *)
(* ------------------------------------------------------------------ *)

Record Store := mkStore {
  students : list Student;     (* in insertion order *)
  polls : list Poll
}.

(** The three module-level variables of server.js. *)
Record Memory := mkMemory {
  currentActivePoll : option Poll;
  pollTimer : option nat;
  answeredStudentsCount : Z
}.

Record Socket := mkSocket {
  sock_id : string;
  sock_studentId : option string     (* [socket.studentId] *)
}.

Record Runtime := mkRuntime {
  sockets : list Socket;             (* the connected sockets *)
  timers : list (nat * Z);           (* armed timeouts: handle, delay in ms *)
  nextTimer : nat;
  nextObjectId : nat
}.

Record World := mkWorld {
  store : Store;
  mem : Memory;
  rt : Runtime;
  emitted : list Message             (* oldest first *)
}.

Definition initial : World :=
  mkWorld (mkStore [] []) (mkMemory None None 0) (mkRuntime [] [] 0 0) [].

(** The failure oracle of one handler run. *)
Record Oracle := mkOracle {
  rd : list bool;
  wr : list bool
}.

Definition no_faults : Oracle := mkOracle [] [].

Record Env := mkEnv {
  world : World;
  oracle : Oracle
}.

(* ------------------------------------------------------------------ *)
(** * A state monad with JavaScript exceptions *)
(* ------------------------------------------------------------------ *)

Inductive Res (A : Type) := Ret (a : A) | Throw.
Arguments Throw {A}.

(** The state survives a throw: nothing is rolled back. *)
Definition M (A : Type) := Env -> Res A * Env.

Definition ret {A} (a : A) : M A := fun e => (Ret a, e).
Definition throw {A} : M A := fun e => (Throw, e).

Definition bind {A B} (m : M A) (f : A -> M B) : M B :=
  fun e => match m e with
           | (Ret a, e') => f a e'
           | (Throw, e') => (Throw, e')
           end.

(** [try { m } catch (error) { h }] *)
Definition try_catch {A} (m h : M A) : M A :=
  fun e => match m e with
           | (Throw, e') => h e'
           | r => r
           end.

(** A call that is not awaited: a rejection is not seen by the caller. *)
Definition detached (m : M unit) : M unit := try_catch m (ret tt).

Declare Scope js_scope.
Delimit Scope js_scope with js.
Notation "x <- m ;; k" := (bind m (fun x => k))
  (at level 61, m at next level, right associativity) : js_scope.
Notation "m ;; k" := (bind m (fun _ => k))
  (at level 61, right associativity) : js_scope.
Open Scope js_scope.

Definition get_world : M World := fun e => (Ret (world e), e).
Definition put_world (w : World) : M unit :=
  fun e => (Ret tt, mkEnv w (oracle e)).

Definition get_mem : M Memory := w <- get_world ;; ret (mem w).
Definition put_mem (m : Memory) : M unit :=
  w <- get_world ;; put_world (mkWorld (store w) m (rt w) (emitted w)).
Definition get_store : M Store := w <- get_world ;; ret (store w).
Definition put_store (s : Store) : M unit :=
  w <- get_world ;; put_world (mkWorld s (mem w) (rt w) (emitted w)).
Definition get_rt : M Runtime := w <- get_world ;; ret (rt w).
Definition put_rt (r : Runtime) : M unit :=
  w <- get_world ;; put_world (mkWorld (store w) (mem w) r (emitted w)).

Definition emit (t : Target) (p : Payload) : M unit :=
  w <- get_world ;;
  put_world (mkWorld (store w) (mem w) (rt w) (emitted w ++ [(t, p)])).

Definition next_fault (tape : list bool) : bool * list bool :=
  match tape with
  | [] => (false, [])
  | b :: tape' => (b, tape')
  end.

Definition store_read : M unit :=
  fun e =>
    let (b, t) := next_fault (rd (oracle e)) in
    let e' := mkEnv (world e) (mkOracle t (wr (oracle e))) in
    if b then (Throw, e') else (Ret tt, e').

Definition store_write : M unit :=
  fun e =>
    let (b, t) := next_fault (wr (oracle e)) in
    let e' := mkEnv (world e) (mkOracle (rd (oracle e)) t) in
    if b then (Throw, e') else (Ret tt, e').

(** The world a handler leaves, started in [w] under oracle [o]. *)
Definition exec {A} (m : M A) (w : World) (o : Oracle) : World :=
  world (snd (m (mkEnv w o))).

(* ------------------------------------------------------------------ *)
(** * Store operations (Mongoose) *)
(* ------------------------------------------------------------------ *)

Definition is_some {A} (o : option A) : bool :=
  match o with Some _ => true | None => false end.

Definition opt_string_eqb (a b : option string) : bool :=
  match a, b with
  | Some x, Some y => String.eqb x y
  | None, None => true
  | _, _ => false
  end.

Definition has_studentId (sid : string) (st : Student) : bool :=
  String.eqb (studentId st) sid.

(** [{ kicked: false, socketId: { $ne: null } }] *)
Definition connected_filter (st : Student) : bool :=
  negb (kicked st) && is_some (socketId st).

Definition set_hasAnswered (b : bool) (st : Student) : Student :=
  mkStudent (socketId st) (studentId st) (name st) (lastSeen st) b (kicked st).

(** [student.save()]: the document replaces the stored one with the same
    unique [studentId], a new document is appended. *)
Fixpoint upsert_student (st : Student) (l : list Student) : list Student :=
  match l with
  | [] => [st]
  | x :: l' =>
      if has_studentId (studentId st) x then st :: l'
      else x :: upsert_student st l'
  end.

(** [updateOne]: the first document the filter selects. *)
Fixpoint update_first {A} (f : A -> bool) (g : A -> A) (l : list A) : list A :=
  match l with
  | [] => []
  | x :: l' => if f x then g x :: l' else x :: update_first f g l'
  end.

Definition update_all {A} (f : A -> bool) (g : A -> A) (l : list A) : list A :=
  map (fun x => if f x then g x else x) l.

Fixpoint upsert_poll (p : Poll) (l : list Poll) : list Poll :=
  match l with
  | [] => [p]
  | x :: l' =>
      if Nat.eqb (_id x) (_id p) then p :: l' else x :: upsert_poll p l'
  end.

Definition Student_findOne (sid : string) : M (option Student) :=
  store_read ;;
  s <- get_store ;;
  ret (find (has_studentId sid) (students s)).

Definition Student_find (f : Student -> bool) : M (list Student) :=
  store_read ;;
  s <- get_store ;;
  ret (filter f (students s)).

(** A [required: true] path of type String: null, undefined and the empty
    string are refused. *)
Definition required (s : option string) : bool :=
  match s with
  | Some s => negb (String.eqb s "")
  | None => false
  end.

(** The validation of StudentSchema: [socketId], [studentId] and [name] are
    required. *)
Definition Student_validate (st : Student) : bool :=
  required (socketId st)
  && required (Some (studentId st))
  && required (Some (name st)).

(** [student.save()]: validation first, a ValidationError being thrown
    before the store is contacted; then the write. *)
Definition Student_save (st : Student) : M unit :=
  if Student_validate st then
    store_write ;;
    s <- get_store ;;
    put_store (mkStore (upsert_student st (students s)) (polls s))
  else throw.

Definition Student_updateMany (f : Student -> bool) (g : Student -> Student)
  : M unit :=
  store_write ;;
  s <- get_store ;;
  put_store (mkStore (update_all f g (students s)) (polls s)).

Definition Student_updateOne (f : Student -> bool) (g : Student -> Student)
  : M unit :=
  store_write ;;
  s <- get_store ;;
  put_store (mkStore (update_first f g (students s)) (polls s)).

Definition Poll_save (p : Poll) : M unit :=
  store_write ;;
  s <- get_store ;;
  put_store (mkStore (students s) (upsert_poll p (polls s))).

(** The id a [new Poll(...)] is given. *)
Definition new_ObjectId : M ObjectId :=
  r <- get_rt ;;
  put_rt (mkRuntime (sockets r) (timers r) (nextTimer r) (S (nextObjectId r))) ;;
  ret (nextObjectId r).

(* ------------------------------------------------------------------ *)
(** * Module-level variables, timers, sockets *)
(* ------------------------------------------------------------------ *)

Definition set_currentActivePoll (p : option Poll) : M unit :=
  m <- get_mem ;;
  put_mem (mkMemory p (pollTimer m) (answeredStudentsCount m)).

Definition set_pollTimer (t : option nat) : M unit :=
  m <- get_mem ;;
  put_mem (mkMemory (currentActivePoll m) t (answeredStudentsCount m)).

Definition set_answeredStudentsCount (n : Z) : M unit :=
  m <- get_mem ;;
  put_mem (mkMemory (currentActivePoll m) (pollTimer m) n).

(** Dereferencing [currentActivePoll]: a TypeError when it is null. *)
Definition the_poll : M Poll :=
  m <- get_mem ;;
  match currentActivePoll m with
  | Some p => ret p
  | None => throw
  end.

(** [currentActivePoll && currentActivePoll.status === "active"] *)
Definition is_active (p : option Poll) : bool :=
  match p with
  | Some p => status_eqb (status p) active
  | None => false
  end.

(** The longest delay a Node timer takes, 2^31 - 1 ms. *)
Definition TIMEOUT_MAX : Z := 2147483647.

(** The delay Node arms for a requested one:
    [if (!(after >= 1 && after <= TIMEOUT_MAX)) after = 1]. *)
Definition timer_delay (after : Z) : Z :=
  if (1 <=? after) && (after <=? TIMEOUT_MAX) then after else 1.

Definition setTimeout (delay : Z) : M nat :=
  r <- get_rt ;;
  put_rt (mkRuntime (sockets r)
                    (timers r ++ [(nextTimer r, timer_delay delay)])
                    (S (nextTimer r)) (nextObjectId r)) ;;
  ret (nextTimer r).

Definition clearTimeout (h : nat) : M unit :=
  r <- get_rt ;;
  put_rt (mkRuntime (sockets r)
                    (filter (fun t => negb (Nat.eqb (fst t) h)) (timers r))
                    (nextTimer r) (nextObjectId r)).

Definition find_socket (sock : string) (r : Runtime) : option Socket :=
  find (fun s => String.eqb (sock_id s) sock) (sockets r).

(** [socket.studentId], [None] for undefined. *)
Definition socket_studentId (sock : string) (r : Runtime) : option string :=
  match find_socket sock r with
  | Some s => sock_studentId s
  | None => None
  end.

(** [socket.studentId = studentId] *)
Definition bind_socket (sock sid : string) : M unit :=
  r <- get_rt ;;
  put_rt (mkRuntime
            (update_all (fun s => String.eqb (sock_id s) sock)
                        (fun s => mkSocket (sock_id s) (Some sid)) (sockets r))
            (timers r) (nextTimer r) (nextObjectId r)).

Definition remove_socket (sock : string) : M unit :=
  r <- get_rt ;;
  put_rt (mkRuntime
            (filter (fun s => negb (String.eqb (sock_id s) sock)) (sockets r))
            (timers r) (nextTimer r) (nextObjectId r)).

Definition add_socket (sock : string) : M unit :=
  r <- get_rt ;;
  put_rt (mkRuntime (sockets r ++ [mkSocket sock None])
                    (timers r) (nextTimer r) (nextObjectId r)).

(* ------------------------------------------------------------------ *)
(** * Poll arithmetic and payload views *)
(* ------------------------------------------------------------------ *)

(** [options.reduce((sum, opt) => sum + opt.votes, 0)] *)
Definition totalVotes (l : list PollOption) : Z :=
  fold_left (fun sum opt => sum + votes opt) l 0.

(** [options.findIndex(...)], [None] for -1. *)
Fixpoint findIndex {A} (f : A -> bool) (l : list A) : option nat :=
  match l with
  | [] => None
  | x :: l' =>
      if f x then Some O
      else match findIndex f l' with
           | Some i => Some (S i)
           | None => None
           end
  end.

Definition inc_votes (o : PollOption) : PollOption :=
  mkOption (text o) (isCorrect o) (votes o + 1).

(** [options[i].votes++] *)
Fixpoint vote_at (i : nat) (l : list PollOption) {struct l}
  : list PollOption :=
  match l, i with
  | [], _ => []
  | o :: l', O => inc_votes o :: l'
  | o :: l', S i' => o :: vote_at i' l'
  end.

Definition with_options (p : Poll) (l : list PollOption) : Poll :=
  mkPoll (_id p) (question p) l (duration p) (status p) (startTime p)
         (completedAt p).

Definition close_poll (p : Poll) (now : Z) : Poll :=
  mkPoll (_id p) (question p) (options p) (duration p) completed
         (startTime p) (Some now).

(** [{ text: opt.text, isCorrect: opt.isCorrect }] *)
Definition option_brief (o : PollOption) : OptionView :=
  mkOptionView (text o) (isCorrect o) None None.

(** The option sub-document as it is. *)
Definition option_doc (o : PollOption) : OptionView :=
  mkOptionView (text o) (isCorrect o) (Some (votes o)) None.

(** The live statistics of [submitAnswer]: no guard on the total. *)
Definition option_stats (total : Z) (o : PollOption) : OptionView :=
  mkOptionView (text o) (isCorrect o) (Some (votes o))
               (Some (Js.percentage (votes o) total)).

(** The final statistics of [endPoll]:
    [totalVotes > 0 ? Math.round((opt.votes / totalVotes) * 100) : 0]. *)
Definition option_final (total : Z) (o : PollOption) : OptionView :=
  mkOptionView (text o) (isCorrect o) (Some (votes o))
               (Some (if 0 <? total then Js.percentage (votes o) total
                      else Js.of_int 0)).

Definition poll_brief (p : Poll) : PollView :=
  mkPollView (_id p) (question p) (map option_brief (options p))
             (duration p) (startTime p) None None.

Definition poll_doc (p : Poll) : PollView :=
  mkPollView (_id p) (question p) (map option_doc (options p))
             (duration p) (startTime p) (Some (status p)) (completedAt p).

Definition poll_stats (p : Poll) : PollView :=
  mkPollView (_id p) (question p)
             (map (option_stats (totalVotes (options p))) (options p))
             (duration p) (startTime p) (Some (status p)) None.

Definition poll_final (p : Poll) : PollView :=
  mkPollView (_id p) (question p)
             (map (option_final (totalVotes (options p))) (options p))
             (duration p) (startTime p) (Some (status p)) (completedAt p).

(* ------------------------------------------------------------------ *)
(** * The handlers of server.js *)
(* ------------------------------------------------------------------ *)

Definition getActiveStudents : M (list Student) :=
  Student_find connected_filter.

Definition emitStudentListUpdate_body : M unit :=
  activeStudents <- getActiveStudents ;;
  emit to_all (studentListUpdate activeStudents).

(** Every call site leaves the returned promise alone. *)
Definition emitStudentListUpdate : M unit :=
  detached emitStudentListUpdate_body.

(** [socket.on("studentJoin", ...)] *)
Definition studentJoin (sock nm sid : string) (now : Z) : M unit :=
  try_catch
    (bind_socket sock sid ;;
     student <- Student_findOne sid ;;
     match student with
     | Some st =>
         Student_save (mkStudent (Some sock) (studentId st) (name st) now
                                 (hasAnswered st) false)
     | None =>
         Student_save (mkStudent (Some sock) sid nm now false false)
     end ;;
     m <- get_mem ;;
     (if is_active (currentActivePoll m) then
        p <- the_poll ;;
        emit (to_socket sock) (newPoll (Some (poll_brief p)) "active")
      else
        emit (to_socket sock) (newPoll None "no_active_poll")) ;;
     emitStudentListUpdate)
    (emit (to_socket sock) (error msg_join_failed)).

(** The body of the [try] of [submitAnswer]. *)
Definition submitAnswer_body (sock sid answer : string) : M unit :=
  student <- Student_findOne sid ;;
  match student with
  | None => emit (to_socket sock) (error msg_already_answered)
  | Some st =>
      if hasAnswered st then
        emit (to_socket sock) (error msg_already_answered)
      else
        p <- the_poll ;;
        match findIndex (fun opt => String.eqb (text opt) answer) (options p)
        with
        | Some optionIndex =>
            set_currentActivePoll
              (Some (with_options p (vote_at optionIndex (options p)))) ;;
            p <- the_poll ;;
            Poll_save p ;;
            Student_save (set_hasAnswered true st) ;;
            m <- get_mem ;;
            set_answeredStudentsCount (answeredStudentsCount m + 1) ;;
            p <- the_poll ;;
            m <- get_mem ;;
            activeStudents <- getActiveStudents ;;
            emit to_all
              (pollUpdate
                 (mkPollUpdate (poll_stats p)
                               (Some (totalVotes (options p)))
                               (answeredStudentsCount m)
                               (List.length activeStudents))) ;;
            emitStudentListUpdate
        | None => emit (to_socket sock) (error msg_invalid_option)
        end
  end.

(** [socket.on("submitAnswer", ...)] *)
Definition submitAnswer (sock : string) (pollId : ObjectId)
  (sid answer : string) : M unit :=
  r <- get_rt ;;
  if negb (opt_string_eqb (socket_studentId sock r) (Some sid)) then
    emit (to_socket sock) (error msg_mismatch)
  else
    m <- get_mem ;;
    match currentActivePoll m with
    | None => emit (to_socket sock) (error msg_wrong_poll)
    | Some p =>
        if negb (Nat.eqb (_id p) pollId) then
          emit (to_socket sock) (error msg_wrong_poll)
        else
          try_catch (submitAnswer_body sock sid answer)
                    (emit (to_socket sock) (error msg_submit_failed))
    end.

(** [endPoll(pollId)], the helper shared by the socket handler and the
    timer. *)
Definition endPoll (pollId : ObjectId) (now : Z) : M (option FinalResults) :=
  m <- get_mem ;;
  match currentActivePoll m with
  | None => ret None
  | Some p =>
      if negb (Nat.eqb (_id p) pollId) then ret None
      else
        match pollTimer m with
        | Some h => clearTimeout h ;; set_pollTimer None
        | None => ret tt
        end ;;
        set_currentActivePoll (Some (close_poll p now)) ;;
        p <- the_poll ;;
        Poll_save p ;;
        p <- the_poll ;;
        let finalResults :=
          mkFinalResults (poll_final p) (totalVotes (options p)) in
        emit to_all (pollEnded finalResults) ;;
        set_currentActivePoll None ;;
        set_answeredStudentsCount 0 ;;
        Student_updateMany (fun _ => true) (set_hasAnswered false) ;;
        emitStudentListUpdate ;;
        ret (Some finalResults)
  end.

(** [socket.on("endPoll", ...)] *)
Definition on_endPoll (sock : string) (pollId : ObjectId) (now : Z) : M unit :=
  try_catch (endPoll pollId now ;; ret tt)
            (emit (to_socket sock) (error msg_end_failed)).

(** The callback of the close timer:
    [async () => { await endPoll(currentActivePoll._id) }].  Nothing
    catches what it throws. *)
Definition timer_callback (now : Z) : M unit :=
  detached (p <- the_poll ;; endPoll (_id p) now ;; ret tt).

(** The body of the [try] of [createPoll]. *)
Definition createPoll_body (pd : PollData) (now : Z) : M unit :=
  Student_updateMany connected_filter (set_hasAnswered false) ;;
  set_answeredStudentsCount 0 ;;
  id <- new_ObjectId ;;
  let newPoll_ :=
    mkPoll id (pd_question pd)
           (map (fun opt => mkOption (fst opt) (snd opt) 0) (pd_options pd))
           (pd_duration pd) active now None in
  Poll_save newPoll_ ;;
  set_currentActivePoll (Some newPoll_) ;;
  m <- get_mem ;;
  match pollTimer m with
  | Some h => clearTimeout h
  | None => ret tt
  end ;;
  h <- setTimeout (pd_duration pd * 1000) ;;
  set_pollTimer (Some h) ;;
  emit to_all (newPoll (Some (poll_brief newPoll_)) "active") ;;
  p <- the_poll ;;
  m <- get_mem ;;
  activeStudents <- getActiveStudents ;;
  emit to_all
    (pollUpdate (mkPollUpdate (poll_doc p) None (answeredStudentsCount m)
                              (List.length activeStudents))) ;;
  emitStudentListUpdate.

(** [socket.on("createPoll", ...)] *)
Definition createPoll (sock : string) (pd : PollData) (now : Z) : M unit :=
  m <- get_mem ;;
  if is_active (currentActivePoll m) then
    emit (to_socket sock) (error msg_already_active)
  else
    try_catch (createPoll_body pd now)
              (emit (to_socket sock) (error msg_create_failed)).

(** [socket.on("disconnect", ...)]; its [catch] only logs. *)
Definition disconnect (sock : string) (now : Z) : M unit :=
  try_catch
    (Student_updateOne
       (fun st => opt_string_eqb (socketId st) (Some sock))
       (fun st => mkStudent None (studentId st) (name st) now
                            (hasAnswered st) (kicked st)) ;;
     emitStudentListUpdate)
    (ret tt).

(** A socket leaves: it is no longer among the connected ones and its
    [disconnect] handler runs. *)
Definition close_socket (sock : string) (now : Z) : M unit :=
  remove_socket sock ;;
  disconnect sock now.

(** [socket.on("kickStudent", ...)] *)
Definition kickStudent (sock sid : string) (now : Z) : M unit :=
  try_catch
    (student <- Student_findOne sid ;;
     match student with
     | None => emit (to_socket sock) (error msg_not_found)
     | Some st =>
         Student_save (mkStudent None (studentId st) (name st) (lastSeen st)
                                 (hasAnswered st) true) ;;
         r <- get_rt ;;
         match find (fun s => opt_string_eqb (sock_studentId s) (Some sid))
                    (sockets r) with
         | Some targetSocket =>
             emit (to_socket (sock_id targetSocket))
                  (studentKicked_notice msg_kicked) ;;
             close_socket (sock_id targetSocket) now
         | None => ret tt
         end ;;
         emitStudentListUpdate ;;
         emit (to_socket sock) (studentKicked_ack sid)
     end)
    (emit (to_socket sock) (error msg_kick_failed)).

(* ------------------------------------------------------------------ *)
(** * Events and runs *)
(* ------------------------------------------------------------------ *)

Inductive Event :=
| EvConnection (sock : string)
| EvStudentJoin (sock nm sid : string)
| EvSubmitAnswer (sock : string) (pollId : ObjectId) (sid answer : string)
| EvCreatePoll (sock : string) (pd : PollData)
| EvEndPoll (sock : string) (pollId : ObjectId)
| EvKickStudent (sock sid : string)
| EvDisconnect (sock : string)
| EvTimeout (h : nat).

(** An event with what the environment decides for it: the clock and the
    behaviour of the store. *)
Record Input := mkInput {
  in_event : Event;
  in_now : Z;
  in_oracle : Oracle
}.

Definition is_connected (sock : string) (w : World) : bool :=
  is_some (find_socket sock (rt w)).

Definition is_armed (h : nat) (w : World) : bool :=
  existsb (fun t => Nat.eqb (fst t) h) (timers (rt w)).

(** The socket an event arrives on must be connected; a timeout fires only
    while it is armed. *)
Definition enabled (ev : Event) (w : World) : bool :=
  match ev with
  | EvConnection sock => negb (is_connected sock w)
  | EvStudentJoin sock _ _ => is_connected sock w
  | EvSubmitAnswer sock _ _ _ => is_connected sock w
  | EvCreatePoll sock _ => is_connected sock w
  | EvEndPoll sock _ => is_connected sock w
  | EvKickStudent sock _ => is_connected sock w
  | EvDisconnect sock => is_connected sock w
  | EvTimeout h => is_armed h w
  end.

Definition handler (ev : Event) (now : Z) : M unit :=
  match ev with
  | EvConnection sock => add_socket sock
  | EvStudentJoin sock nm sid => studentJoin sock nm sid now
  | EvSubmitAnswer sock pollId sid answer => submitAnswer sock pollId sid answer
  | EvCreatePoll sock pd => createPoll sock pd now
  | EvEndPoll sock pollId => on_endPoll sock pollId now
  | EvKickStudent sock sid => kickStudent sock sid now
  | EvDisconnect sock => close_socket sock now
  | EvTimeout h => clearTimeout h ;; timer_callback now
      (* a timeout that fires is no longer armed *)
  end.

Definition step (w : World) (i : Input) : World :=
  if enabled (in_event i) w
  then exec (handler (in_event i) (in_now i)) w (in_oracle i)
  else w.

Definition run (w : World) (inputs : list Input) : World :=
  fold_left step inputs w.

(** The states the server can be in, started on an empty store. *)
Definition reachable (w : World) : Prop :=
  exists inputs, w = run initial inputs.

(* ------------------------------------------------------------------ *)
(** * Vocabulary of the properties *)
(* ------------------------------------------------------------------ *)

(** A tape on which no operation fails. *)
Definition silent (tape : list bool) : Prop := forallb negb tape = true.

Definition quiet (o : Oracle) : Prop := silent (rd o) /\ silent (wr o).

(** The world with one more message sent. *)
Definition sending (w : World) (msgs : list Message) : World :=
  mkWorld (store w) (mem w) (rt w) (emitted w ++ msgs).

Definition lookup (sid : string) (w : World) : option Student :=
  find (has_studentId sid) (students (store w)).

(** The vote counts of the poll in the active-poll slot. *)
Definition vote_counts (w : World) : list Z :=
  match currentActivePoll (mem w) with
  | Some p => map votes (options p)
  | None => []
  end.

(** [closePoll] has nothing to close: the slot is empty or holds another
    poll. *)
Definition nothing_to_close (pollId : ObjectId) (w : World) : Prop :=
  match currentActivePoll (mem w) with
  | None => True
  | Some p => _id p <> pollId
  end.







(** Join, leave: the events of a reconnection. *)
Definition presence_event (ev : Event) : bool :=
  match ev with
  | EvConnection _ | EvStudentJoin _ _ _ | EvDisconnect _ => true
  | _ => false
  end.

(** A connected respondent is not blocked. *)
Definition good (st : Student) : Prop :=
  socketId st <> None -> kicked st = false.

Definition presence_inv (w : World) : Prop :=
  Forall good (students (store w)).



Definition votes_nonneg (w : World) : Prop :=
  match currentActivePoll (mem w) with
  | Some p => Forall (fun o => 0 <= votes o) (options p)
  | None => True
  end.

(** Every result update that carries a total divides by a total of at
    least one. *)
Definition divisors_positive (w : World) : Prop :=
  forall u t,
    In (to_all, pollUpdate u) (emitted w) ->
    pu_totalVoters u = Some t ->
    1 <= t
    /\ exists opts,
         t = totalVotes opts
         /\ pv_options (pu_poll u) = map (option_stats t) opts.

Definition writes_succeed (inputs : list Input) : Prop :=
  Forall (fun i => silent (wr (in_oracle i))) inputs.



(** What an accepted vote leaves behind. *)
Definition vote_applied (w : World) (st : Student) (p' : Poll) : World :=
  let ss' := upsert_student (set_hasAnswered true st) (students (store w)) in
  let n := answeredStudentsCount (mem w) + 1 in
  mkWorld
    (mkStore ss' (upsert_poll p' (polls (store w))))
    (mkMemory (Some p') (pollTimer (mem w)) n)
    (rt w)
    (emitted w
     ++ [ (to_all,
           pollUpdate
             (mkPollUpdate (poll_stats p') (Some (totalVotes (options p'))) n
                (List.length (filter connected_filter ss'))));
          (to_all, studentListUpdate (filter connected_filter ss')) ]).


(** The final snapshots and the result updates among sent messages. *)
Definition pollEnded_of (l : list Message) : list FinalResults :=
  flat_map (fun m => match snd m with pollEnded r => [r] | _ => [] end) l.

Definition pollUpdates_of (l : list Message) : list PollUpdate :=
  flat_map (fun m => match snd m with pollUpdate u => [u] | _ => [] end) l.

Definition percentages (v : PollView) : list (option Js.number) :=
  map ov_percentage (pv_options v).

(** The poll a [createPoll] builds, and what the handler leaves behind
    when it succeeds. *)
Definition new_poll (w : World) (pd : PollData) (now : Z) : Poll :=
  mkPoll (nextObjectId (rt w)) (pd_question pd)
         (map (fun opt => mkOption (fst opt) (snd opt) 0) (pd_options pd))
         (pd_duration pd) active now None.

Definition poll_created (w : World) (pd : PollData) (now : Z) : World :=
  let ss' := update_all connected_filter (set_hasAnswered false)
                        (students (store w)) in
  let p := new_poll w pd now in
  let ts := match pollTimer (mem w) with
            | Some h => filter (fun t => negb (Nat.eqb (fst t) h))
                               (timers (rt w))
            | None => timers (rt w)
            end in
  mkWorld
    (mkStore ss' (upsert_poll p (polls (store w))))
    (mkMemory (Some p) (Some (nextTimer (rt w))) 0)
    (mkRuntime (sockets (rt w))
       (ts ++ [(nextTimer (rt w), timer_delay (pd_duration pd * 1000))])
       (S (nextTimer (rt w))) (S (nextObjectId (rt w))))
    (emitted w
     ++ [ (to_all, newPoll (Some (poll_brief p)) "active");
          (to_all,
           pollUpdate
             (mkPollUpdate (poll_doc p) None 0
                (List.length (filter connected_filter ss'))));
          (to_all, studentListUpdate (filter connected_filter ss')) ]).

(** What a successful [endPoll] leaves behind. *)
Definition poll_closed (w : World) (p : Poll) (now : Z) : World :=
  let p' := close_poll p now in
  let ss' := update_all (fun _ => true) (set_hasAnswered false)
                        (students (store w)) in
  let ts := match pollTimer (mem w) with
            | Some h => filter (fun t => negb (Nat.eqb (fst t) h))
                               (timers (rt w))
            | None => timers (rt w)
            end in
  mkWorld
    (mkStore ss' (upsert_poll p' (polls (store w))))
    (mkMemory None None 0)
    (mkRuntime (sockets (rt w)) ts (nextTimer (rt w)) (nextObjectId (rt w)))
    (emitted w
     ++ [ (to_all,
           pollEnded (mkFinalResults (poll_final p')
                                     (totalVotes (options p))));
          (to_all, studentListUpdate (filter connected_filter ss')) ]).

(** Structural equality of doubles. *)
Definition same_float (x y : spec_float) : bool :=
  match x, y with
  | S754_zero a, S754_zero b => Bool.eqb a b
  | S754_infinity a, S754_infinity b => Bool.eqb a b
  | S754_nan, S754_nan => true
  | S754_finite a m e, S754_finite b n f =>
      Bool.eqb a b && Pos.eqb m n && Z.eqb e f
  | _, _ => false
  end.

(** The computed percentage is the intended one for every split of every
    total below [n]. *)
Definition percentages_exact_below (n : nat) : bool :=
  forallb
    (fun t =>
       forallb
         (fun v =>
            same_float (Js.percentage (Z.of_nat v) (Z.of_nat t))
                       (Js.of_int (Js.exact_percentage (Z.of_nat v)
                                                       (Z.of_nat t))))
         (seq 0 (S t)))
    (seq 1 (n - 1)).


(* ------------------------------------------------------------------ *)
(** * Vocabulary of the further properties *)
(* ------------------------------------------------------------------ *)

(** The persistent ids on record, in store order. *)
Definition ids (w : World) : list string :=
  map studentId (students (store w)).

(** One step either keeps the ids or appends a new one. *)
Definition ids_extend (l l' : list string) : Prop :=
  l' = l \/ exists s, ~ In s l /\ l' = l ++ [s].

(** What a respondent record keeps through presence changes. *)
Definition identity (st : Student) : string * string * bool :=
  (studentId st, name st, hasAnswered st).




(** The records that carry a socket id. *)
Definition carrying (sock : string) (l : list Student) : list Student :=
  filter (fun st => opt_string_eqb (socketId st) (Some sock)) l.

(** The record a join leaves under the id. *)
Definition joined_record (w : World) (sock nm sid : string) (now : Z)
  : Student :=
  match lookup sid w with
  | Some st => mkStudent (Some sock) sid (name st) now (hasAnswered st) false
  | None => mkStudent (Some sock) sid nm now false false
  end.

(** The socket an event arrives on; a timeout has none. *)
Definition event_socket (ev : Event) : option string :=
  match ev with
  | EvConnection s | EvStudentJoin s _ _ | EvSubmitAnswer s _ _ _
  | EvCreatePoll s _ | EvEndPoll s _ | EvKickStudent s _
  | EvDisconnect s => Some s
  | EvTimeout _ => None
  end.

(** Error notices and kick confirmations go to the socket of the event,
    result updates, final results and presence lists to everybody. *)
Definition well_addressed (caller : option string) (m : Message) : Prop :=
  match snd m with
  | error _ | studentKicked_ack _ =>
      exists s, caller = Some s /\ fst m = to_socket s
  | pollUpdate _ | pollEnded _ | studentListUpdate _ => fst m = to_all
  | newPoll _ _ | studentKicked_notice _ => True
  end.

(** Events that concern respondents only. *)
Definition registry_event (ev : Event) : bool :=
  match ev with
  | EvConnection _ | EvStudentJoin _ _ _ | EvDisconnect _
  | EvKickStudent _ _ => true
  | _ => false
  end.

(** At most one close timer is armed; it is the one [pollTimer] holds, the
    slot holds an active poll, and the delay is the one Node arms for that
    poll's duration in milliseconds. *)
Definition timer_inv (w : World) : Prop :=
  match timers (rt w) with
  | [] => True
  | [(h, d)] =>
      pollTimer (mem w) = Some h
      /\ exists p, currentActivePoll (mem w) = Some p
                   /\ status p = active
                   /\ d = timer_delay (duration p * 1000)
  | _ => False
  end.

(** The same poll, later: nothing but the votes, the status and the
    completion time may differ, no vote count is lower, and a completed
    poll is still completed. *)
Definition grown (p p' : Poll) : Prop :=
  _id p' = _id p
  /\ question p' = question p
  /\ duration p' = duration p
  /\ startTime p' = startTime p
  /\ map text (options p') = map text (options p)
  /\ map isCorrect (options p') = map isCorrect (options p)
  /\ Forall2 (fun o o' => votes o <= votes o') (options p) (options p')
  /\ (status p = completed -> status p' = completed).

(** From [w] to [w']: ids are handed out in order, and the poll in the
    slot of [w'] is the one of [w], grown, or a poll created since. *)
Definition poll_succession (w w' : World) : Prop :=
  (nextObjectId (rt w) <= nextObjectId (rt w'))%nat
  /\ match currentActivePoll (mem w') with
     | None => True
     | Some p' =>
         (_id p' < nextObjectId (rt w'))%nat
         /\ ((exists p, currentActivePoll (mem w) = Some p /\ grown p p')
             \/ (nextObjectId (rt w) <= _id p')%nat)
     end.

Definition slot_id_known (w : World) : Prop :=
  match currentActivePoll (mem w) with
  | None => True
  | Some p => (_id p < nextObjectId (rt w))%nat
  end.

(** The poll collection agrees with the memory: ids are distinct and
    already handed out; the poll of the slot is active and stored as it is
    in memory; every other stored poll is completed. *)
Definition in_sync (ps : list Poll) (next : nat) (slot : option Poll)
  : Prop :=
  NoDup (map _id ps)
  /\ Forall (fun q => (_id q < next)%nat) ps
  /\ match slot with
     | Some p =>
         status p = active
         /\ In p ps
         /\ Forall (fun q => _id q = _id p \/ status q = completed) ps
     | None => Forall (fun q => status q = completed) ps
     end.

(** Every completed poll of [l] is in [l'] as it was. *)
Definition closed_kept (l l' : list Poll) : Prop :=
  forall q, In q l -> status q = completed -> In q l'.

Definition polls_in_sync (w : World) : Prop :=
  in_sync (polls (store w)) (nextObjectId (rt w)) (currentActivePoll (mem w)).

(** The computed percentage is the intended one, or one below it at an
    exact half. *)
Definition percentage_close (v t : Z) : bool :=
  let e := Js.exact_percentage v t in
  same_float (Js.percentage v t) (Js.of_int e)
  || ((200 * v + t) mod (2 * t) =? 0)
     && same_float (Js.percentage v t) (Js.of_int (e - 1)).

Definition percentages_close_upto (n : nat) : bool :=
  forallb
    (fun t =>
       forallb (fun v => percentage_close (Z.of_nat v) (Z.of_nat t))
               (seq 0 (S t)))
    (seq 1 n).

(* ------------------------------------------------------------------ *)
(** * Concrete scenarios *)
(* ------------------------------------------------------------------ *)

Definition at_ (now : Z) (ev : Event) : Input := mkInput ev now no_faults.

(** The poll of the spec's scenario. *)
Definition two_plus_two : PollData :=
  mkPollData "2+2?" [("4", true); ("5", false)] 30.

(** A presenter and two respondents, the poll just opened. *)
Definition classroom : list Input :=
  [ at_ 1 (EvConnection "t"); at_ 2 (EvConnection "a");
    at_ 3 (EvConnection "b");
    at_ 4 (EvStudentJoin "a" "Ann" "A"); at_ 5 (EvStudentJoin "b" "Bob" "B");
    at_ 6 (EvCreatePoll "t" two_plus_two) ].

Definition poll_open : World := Eval vm_compute in run initial classroom.

(** A class of [n] respondents; respondent [i] has socket and id made of
    the [i]-th letter. *)
Definition letter (i : nat) : string :=
  String (ascii_of_nat (65 + i)) EmptyString.

Definition join_all (n : nat) : list Input :=
  flat_map (fun i => [ at_ 0 (EvConnection (letter i));
                       at_ 0 (EvStudentJoin (letter i) (letter i) (letter i)) ])
           (seq 0 n).

Definition answer_all (first n : nat) (answer : string) : list Input :=
  map (fun i => at_ 0 (EvSubmitAnswer (letter i) 0%nat (letter i) answer))
      (seq first n).

(** Forty respondents: twenty-three answer "4", seventeen "5", then the
    presenter closes the poll. *)
Definition poll_23_of_40 : list Input :=
  at_ 0 (EvConnection "t") :: join_all 40
  ++ [ at_ 0 (EvCreatePoll "t" two_plus_two) ]
  ++ answer_all 0 23 "4" ++ answer_all 23 17 "5"
  ++ [ at_ 0 (EvEndPoll "t" 0%nat) ].

(** The poll in the slot of [poll_open], and Ann's record there. *)
Definition open_poll : Poll :=
  mkPoll 0%nat "2+2?" [mkOption "4" true 0; mkOption "5" false 0]
         30 active 6 None.

Definition ann : Student := mkStudent (Some "a") "A" "Ann" 4 false false.

(** The presenter closes the open poll while the store rejects the save:
    the poll stays in the slot, marked completed. *)
Definition close_failed : World :=
  Eval vm_compute in
    run poll_open [ mkInput (EvEndPoll "t" 0%nat) 8 (mkOracle [] [true]) ].

(** Ann answers "4" in the open poll. *)
Definition first_vote : list Input :=
  classroom ++ [ at_ 7 (EvSubmitAnswer "a" 0%nat "A" "4") ].

Definition after_first_vote : World := Eval vm_compute in run initial first_vote.

(** The result update broadcast for that vote. *)
Definition first_vote_update : PollUpdate :=
  Eval vm_compute in
    mkPollUpdate
      (poll_stats (mkPoll 0%nat "2+2?" [mkOption "4" true 1; mkOption "5" false 0]
                          30 active 6 None))
      (Some 1) 1 2.



(** Ann drops and comes back on a new socket. *)
Definition ann_reconnects : list Input :=
  [ at_ 8 (EvDisconnect "a"); at_ 9 (EvConnection "a2");
    at_ 10 (EvStudentJoin "a2" "Ann" "A") ].

Definition ann_answered : Student :=
  mkStudent (Some "a") "A" "Ann" 4 true false.

(** The final snapshot of the poll closed with 23 and 17 votes. *)
Definition final_23_of_40 : FinalResults :=
  Eval vm_compute in
    mkFinalResults
      (poll_final
         (close_poll
            (mkPoll 0%nat "2+2?"
                    [mkOption "4" true 23; mkOption "5" false 17]
                    30 active 0 None) 0))
      40.

(** The result update broadcast when the poll of the scenario opens. *)
Definition opening_update : PollUpdate :=
  Eval vm_compute in
    mkPollUpdate
      (poll_doc (mkPoll 0%nat "2+2?"
                   [mkOption "4" true 0; mkOption "5" false 0]
                   30 active 6 None))
      None 0 2.





(** The open poll of the scenario is closed; later a new one is opened. *)
Definition closed_run : list Input :=
  classroom ++ [ at_ 8 (EvEndPoll "t" 0%nat) ].

Definition closed_2plus2 : Poll := close_poll open_poll 8.

Definition reopen : list Input :=
  [ at_ 9 (EvCreatePoll "t" two_plus_two) ].

(* ------------------------------------------------------------------ *)
(** * Symbolic execution of the handlers *)

Unset Implicit Arguments.
(* ------------------------------------------------------------------ *)

Ltac mred :=
  cbv beta iota zeta delta
    [exec try_catch detached bind ret throw get_world put_world get_mem
     put_mem get_store put_store get_rt put_rt emit store_read store_write
     next_fault Student_findOne Student_find Student_save Student_updateMany
     Student_updateOne Poll_save new_ObjectId set_currentActivePoll
     set_pollTimer set_answeredStudentsCount the_poll setTimeout clearTimeout
     bind_socket remove_socket add_socket getActiveStudents
     emitStudentListUpdate emitStudentListUpdate_body is_active status_eqb
     sending lookup
     world oracle rd wr store mem rt emitted students polls
     currentActivePoll pollTimer answeredStudentsCount sockets timers
     nextTimer nextObjectId snd].

Ltac silence :=
  repeat match goal with
         | H : silent (_ :: _) |- _ =>
             unfold silent in H; cbn [forallb negb andb] in H;
             try discriminate H; fold (silent) in H
         | H : forallb negb (_ :: _) = true |- _ =>
             cbn [forallb negb andb] in H; try discriminate H
         end.

(** Case analysis on whatever blocks the evaluation, innermost first. *)
Ltac crunch :=
  repeat (mred; silence; try discriminate;
          match goal with
          | |- context [match ?x with _ => _ end] =>
              lazymatch x with
              | context [match _ with _ => _ end] => fail
              | _ => destruct x eqn:?
              end
          end).

Ltac open_world w :=
  destruct w as [[ss ps] [cur tm cnt] [sk ti nt no] em].

(* ------------------------------------------------------------------ *)
(** * createPoll while a poll is active *)
(* ------------------------------------------------------------------ *)

(** C3.  Whenever [createPoll] is invoked while the slot holds a poll whose
    status is active, the caller gets the already-active notice and nothing
    else happens: the store is not contacted (no new poll), and the memory,
    with the active-poll reference and its vote counts, is as before. *)
Theorem createPoll_rejected_while_active :
  forall w o sock pd now p,
    currentActivePoll (mem w) = Some p ->
    status p = active ->
    createPoll sock pd now (mkEnv w o)
    = (Ret tt,
       mkEnv (sending w [(to_socket sock, error msg_already_active)]) o).
Proof.
  intros w o sock pd now p Hcur Hst.
  open_world w. cbn in Hcur. subst.
  unfold createPoll. mred. rewrite Hst. reflexivity.
Qed.

Lemma createPoll_rejected_while_active_witness :
  currentActivePoll (mem poll_open) = Some open_poll
  /\ status open_poll = active
  /\ createPoll "t" two_plus_two 9 (mkEnv poll_open no_faults)
     = (Ret tt,
        mkEnv (sending poll_open [(to_socket "t", error msg_already_active)])
              no_faults).
Proof.
  split; [reflexivity|]. split; [reflexivity|].
  apply (createPoll_rejected_while_active poll_open no_faults "t"
           two_plus_two 9 open_poll); reflexivity.
Defined.

(* ------------------------------------------------------------------ *)
(** * closePoll with nothing to close *)
(* ------------------------------------------------------------------ *)

(** C5.  An invocation of [endPoll] whose id is not the id of the poll in
    the slot, or that finds the slot empty, returns at once: the world is
    the same (poll store not written, memory unchanged, nothing emitted,
    hence no poll-closed notice) and the store has not been contacted.  The
    same holds when it arrives through the socket event, and for the timer
    callback on an empty slot, which stops before it calls [endPoll]. *)
Theorem endPoll_nothing_to_close :
  forall w o sock pollId now,
    nothing_to_close pollId w ->
    endPoll pollId now (mkEnv w o) = (Ret None, mkEnv w o)
    /\ on_endPoll sock pollId now (mkEnv w o) = (Ret tt, mkEnv w o)
    /\ (currentActivePoll (mem w) = None ->
        timer_callback now (mkEnv w o) = (Ret tt, mkEnv w o)).
Proof.
  intros w o sock pollId now H.
  open_world w. unfold nothing_to_close in H. cbn in H.
  unfold on_endPoll, timer_callback, endPoll.
  destruct cur as [p|]; mred.
  - apply Nat.eqb_neq in H. rewrite H. cbn.
    repeat split. discriminate.
  - repeat split.
Qed.

Lemma endPoll_nothing_to_close_witness :
  nothing_to_close 7%nat poll_open
  /\ exec (on_endPoll "t" 7%nat 9) poll_open no_faults = poll_open.
Proof.
  split; [cbn; discriminate|].
  unfold exec.
  destruct (endPoll_nothing_to_close poll_open no_faults "t" 7%nat 9
              ltac:(cbn; discriminate)) as [_ [H _]].
  rewrite H. reflexivity.
Defined.

(** The guard looks at the slot, not at the status.  A poll that a failed
    close-time save has left in the slot, already marked completed, does
    not block a new poll, and an [endPoll] carrying its id closes it
    again. *)
Remark lingering_poll_closes_again :
  currentActivePoll (mem close_failed) <> None
  /\ is_active (currentActivePoll (mem close_failed)) = false
  /\ pollEnded_of (emitted close_failed) = []
  /\ List.length
       (pollEnded_of
          (emitted (run close_failed [ at_ 9 (EvEndPoll "t" 0%nat) ])))
     = 1%nat.
Proof.
  repeat split; try reflexivity. discriminate.
Qed.

(* ------------------------------------------------------------------ *)
(** * A connected respondent is never blocked *)
(* ------------------------------------------------------------------ *)

Lemma upsert_good st l :
  good st -> Forall good l -> Forall good (upsert_student st l).
Proof.
  intros Hs Hl. induction Hl; cbn.
  - constructor; auto.
  - destruct (has_studentId (studentId st) x); constructor; auto.
Qed.

Lemma find_good f l st : Forall good l -> find f l = Some st -> good st.
Proof.
  intros Hl Hf. apply find_some in Hf.
  rewrite Forall_forall in Hl. apply Hl, Hf.
Qed.

Lemma update_all_good f g l :
  (forall x, good x -> good (g x)) ->
  Forall good l -> Forall good (update_all f g l).
Proof.
  intros Hg Hl. unfold update_all.
  induction Hl; cbn; constructor; auto.
  destruct (f x); auto.
Qed.

Lemma update_first_good f g l :
  (forall x, good x -> good (g x)) ->
  Forall good l -> Forall good (update_first f g l).
Proof.
  intros Hg Hl. induction Hl; cbn; [constructor|].
  destruct (f x); constructor; auto.
Qed.

Lemma set_hasAnswered_good b st : good st -> good (set_hasAnswered b st).
Proof. unfold good. destruct st; cbn. auto. Qed.

Lemma offline_good sid nm seen ans k : good (mkStudent None sid nm seen ans k).
Proof. unfold good; cbn. congruence. Qed.

Lemma unblocked_good s sid nm seen ans : good (mkStudent s sid nm seen ans false).
Proof. unfold good; cbn. auto. Qed.

Create HintDb presence.

#[local] Hint Resolve upsert_good update_all_good update_first_good
  set_hasAnswered_good offline_good unblocked_good : presence.

Ltac presence_done :=
  cbn [students store world snd]; eauto 6 using find_good with presence.

Lemma handler_keeps_presence ev now w o :
  presence_inv w -> presence_inv (exec (handler ev now) w o).
Proof.
  unfold presence_inv. open_world w. destruct o as [tr tw].
  cbn [students store]. intros H.
  destruct ev; unfold handler, studentJoin, submitAnswer, submitAnswer_body,
    createPoll, createPoll_body, on_endPoll, timer_callback, endPoll,
    kickStudent, close_socket, disconnect.
  all: crunch; presence_done.
Qed.

Lemma step_keeps_presence w i : presence_inv w -> presence_inv (step w i).
Proof.
  intros H. unfold step.
  destruct (enabled (in_event i) w); auto using handler_keeps_presence.
Qed.

Lemma run_keeps_presence inputs :
  forall w, presence_inv w -> presence_inv (run w inputs).
Proof.
  induction inputs as [|i inputs IH]; intros w H; cbn; auto.
  apply IH, step_keeps_presence, H.
Qed.

(** C8.  In every state the server reaches from an empty store, by any
    sequence of connections, joins, disconnections, blocks, poll creations,
    answers, closes and timer expiries, under any behaviour of the store,
    every respondent record whose [socketId] is not null has
    [kicked = false]. *)
Theorem connected_respondent_not_blocked :
  forall w st,
    reachable w ->
    In st (students (store w)) ->
    socketId st <> None ->
    kicked st = false.
Proof.
  intros w st [inputs ->] Hin.
  assert (H : presence_inv (run initial inputs))
    by (apply run_keeps_presence; constructor).
  unfold presence_inv in H. rewrite Forall_forall in H.
  exact (H st Hin).
Qed.

Lemma connected_respondent_not_blocked_witness :
  reachable poll_open
  /\ In ann (students (store poll_open))
  /\ socketId ann <> None
  /\ kicked ann = false.
Proof.
  assert (Hr : reachable poll_open) by (exists classroom; reflexivity).
  assert (Hin : In ann (students (store poll_open))) by (left; reflexivity).
  assert (Hs : socketId ann <> None) by discriminate.
  split; [exact Hr|]. split; [exact Hin|]. split; [exact Hs|].
  exact (connected_respondent_not_blocked poll_open ann Hr Hin Hs).
Defined.

(* ------------------------------------------------------------------ *)
(** * Vote totals *)
(* ------------------------------------------------------------------ *)

Lemma totalVotes_acc l a :
  fold_left (fun sum opt => sum + votes opt) l a = a + totalVotes l.
Proof.
  unfold totalVotes. revert a.
  induction l as [|o l IH]; intros a; cbn; [lia|].
  rewrite IH, (IH (votes o)). lia.
Qed.

Lemma totalVotes_cons o l : totalVotes (o :: l) = votes o + totalVotes l.
Proof. unfold totalVotes at 1. cbn. apply totalVotes_acc. Qed.

Lemma totalVotes_vote_at f l :
  forall i, findIndex f l = Some i ->
            totalVotes (vote_at i l) = totalVotes l + 1.
Proof.
  induction l as [|o l IH]; intros i Hi; cbn in Hi; [discriminate|].
  destruct (f o).
  - inversion Hi; subst. cbn [vote_at]. rewrite !totalVotes_cons. cbn. lia.
  - destruct (findIndex f l) as [j|]; [|discriminate].
    inversion Hi; subst. cbn [vote_at].
    rewrite !totalVotes_cons, (IH j eq_refl). lia.
Qed.


Lemma totalVotes_nonneg l :
  Forall (fun o => 0 <= votes o) l -> 0 <= totalVotes l.
Proof.
  induction 1 as [|o l Ho _ IH]; [reflexivity|].
  rewrite totalVotes_cons. lia.
Qed.

Lemma vote_at_nonneg l :
  Forall (fun o => 0 <= votes o) l ->
  forall i, Forall (fun o => 0 <= votes o) (vote_at i l).
Proof.
  induction 1 as [|o l Ho Hl IH]; intros i; cbn; [constructor|].
  destruct i; constructor; auto. cbn. lia.
Qed.

Lemma fresh_nonneg (l : list (string * bool)) :
  Forall (fun o => 0 <= votes o)
         (map (fun opt => mkOption (fst opt) (snd opt) 0) l).
Proof. induction l; cbn; constructor; auto. cbn. lia. Qed.

(* ------------------------------------------------------------------ *)
(** * The answered counter follows the votes *)
(* ------------------------------------------------------------------ *)

Arguments totalVotes : simpl never.

Ltac unfold_handlers :=
  unfold handler, studentJoin, submitAnswer, submitAnswer_body, createPoll,
    createPoll_body, on_endPoll, timer_callback, endPoll, kickStudent,
    close_socket, disconnect.

(** Splits a membership in the emitted messages into the old ones and
    each new one. *)
Ltac split_emitted H :=
  repeat (apply in_app_or in H; destruct H as [H|H]);
  try (cbn [In] in H; destruct H as [H|[]]; inversion H; subst; clear H).

Lemma validate_set_hasAnswered b st :
  Student_validate (set_hasAnswered b st) = Student_validate st.
Proof. reflexivity. Qed.

(** Brings what is known about the lookups into the hypothesis [H]. *)
Ltac lookups_in H :=
  repeat match goal with
         | E : find (has_studentId _) _ = _ |- _ => rewrite E in H
         end.




Lemma handler_keeps_divisors ev now w o :
  votes_nonneg w /\ divisors_positive w ->
  votes_nonneg (exec (handler ev now) w o)
  /\ divisors_positive (exec (handler ev now) w o).
Proof.
  unfold votes_nonneg, divisors_positive. open_world w. destruct o as [tr tw].
  cbn [currentActivePoll mem emitted].
  intros [Hc Hu].
  destruct ev; unfold_handlers.
  all: crunch.
  all: split; [ | intros u t Hin Ht; split_emitted Hin; eauto ].
  all: cbn in *; try tauto; auto using vote_at_nonneg, fresh_nonneg.
  all: try discriminate.
  all: inversion Ht; subst; split;
    [ erewrite totalVotes_vote_at by eauto;
      pose proof (totalVotes_nonneg _ Hc); lia
    | eexists; split; reflexivity ].
Qed.







Lemma step_keeps_divisors w i :
  votes_nonneg w /\ divisors_positive w ->
  votes_nonneg (step w i) /\ divisors_positive (step w i).
Proof.
  intros H. unfold step.
  destruct (enabled (in_event i) w); auto using handler_keeps_divisors.
Qed.

Lemma run_keeps_divisors inputs :
  forall w, votes_nonneg w /\ divisors_positive w ->
            votes_nonneg (run w inputs) /\ divisors_positive (run w inputs).
Proof.
  induction inputs as [|i inputs IH]; intros w H; cbn; auto.
  apply IH, step_keeps_divisors, H.
Qed.

(** C10.  In every reachable state, under any behaviour of the store, a
    result update computed after an accepted vote (the one that carries
    [totalVoters]) has a total of at least 1, and that total is the divisor
    of each of its percentages. *)
Theorem live_update_divisor_positive :
  forall w u t,
    reachable w ->
    In (to_all, pollUpdate u) (emitted w) ->
    pu_totalVoters u = Some t ->
    1 <= t
    /\ exists opts,
         t = totalVotes opts
         /\ pv_options (pu_poll u) = map (option_stats t) opts.
Proof.
  intros w u t [inputs ->].
  assert (H : votes_nonneg initial /\ divisors_positive initial).
  { split; [exact I|]. intros u' t' []. }
  apply (run_keeps_divisors inputs) in H.
  destruct H as [_ H]. apply H.
Qed.

Lemma live_update_divisor_positive_witness :
  reachable after_first_vote
  /\ In (to_all, pollUpdate first_vote_update) (emitted after_first_vote)
  /\ pu_totalVoters first_vote_update = Some 1
  /\ 1 <= 1.
Proof.
  assert (Hr : reachable after_first_vote) by (exists first_vote; reflexivity).
  assert (Hin : In (to_all, pollUpdate first_vote_update)
                   (emitted after_first_vote))
    by (do 7 right; left; reflexivity).
  split; [exact Hr|]. split; [exact Hin|]. split; [reflexivity|].
  exact (proj1 (live_update_divisor_positive after_first_vote
                  first_vote_update 1 Hr Hin eq_refl)).
Defined.

(* ------------------------------------------------------------------ *)
(** * submitAnswer, one respondent *)
(* ------------------------------------------------------------------ *)

Lemma find_upsert sid st l :
  has_studentId sid st = true ->
  find (has_studentId sid) (upsert_student st l) = Some st.
Proof.
  intros H. pose proof H as E. unfold has_studentId in E.
  apply String.eqb_eq in E.
  induction l as [|x l IH]; cbn.
  - rewrite H. reflexivity.
  - destruct (has_studentId (studentId st) x) eqn:Hx; cbn.
    + rewrite H. reflexivity.
    + rewrite E in Hx. rewrite Hx. exact IH.
Qed.

Lemma find_has_studentId sid l st :
  find (has_studentId sid) l = Some st -> has_studentId sid st = true.
Proof. intros H. apply find_some in H. apply H. Qed.


Lemma submitAnswer_already w o sock sid answer p :
  currentActivePoll (mem w) = Some p ->
  socket_studentId sock (rt w) = Some sid ->
  match lookup sid w with
  | Some st => hasAnswered st = true
  | None => True
  end ->
  hd false (rd o) = false ->
  submitAnswer sock (_id p) sid answer (mkEnv w o)
  = (Ret tt,
     mkEnv (sending w [(to_socket sock, error msg_already_answered)])
           (mkOracle (tl (rd o)) (wr o))).
Proof.
  intros Hcur Hsock Hst Hrd. open_world w. destruct o as [tr tw].
  cbn in Hcur, Hsock, Hst, Hrd. subst cur.
  unfold submitAnswer, submitAnswer_body. mred.
  rewrite Hsock. cbn [opt_string_eqb]. rewrite String.eqb_refl.
  cbn [negb]. mred. rewrite Nat.eqb_refl. cbn [negb].
  destruct tr as [|b tr]; cbn in Hrd; subst; mred;
    destruct (find (has_studentId sid) ss) as [st|]; mred;
    try rewrite Hst; reflexivity.
Qed.

Lemma submitAnswer_lookup_fails w o sock sid answer p :
  currentActivePoll (mem w) = Some p ->
  socket_studentId sock (rt w) = Some sid ->
  hd false (rd o) = true ->
  exec (submitAnswer sock (_id p) sid answer) w o
  = sending w [(to_socket sock, error msg_submit_failed)].
Proof.
  intros Hcur Hsock Hrd. open_world w. destruct o as [tr tw].
  cbn in Hcur, Hsock, Hrd. subst cur.
  unfold submitAnswer, submitAnswer_body. mred.
  rewrite Hsock. cbn [opt_string_eqb]. rewrite String.eqb_refl.
  cbn [negb]. mred. rewrite Nat.eqb_refl. cbn [negb].
  destruct tr as [|b tr]; cbn in Hrd; [discriminate|]. subst. reflexivity.
Qed.





(* ------------------------------------------------------------------ *)
(** * Store failures *)
(* ------------------------------------------------------------------ *)

(** C2 as stated fails: the poll save is rejected, the caller gets the
    error notice, and the in-memory vote count stays incremented. *)
Lemma failed_poll_save_keeps_vote :
  let w' := exec (submitAnswer "a" 0%nat "A" "4") poll_open
                 (mkOracle [] [true]) in
  emitted w' = emitted poll_open ++ [(to_socket "a", error msg_submit_failed)]
  /\ store w' = store poll_open
  /\ vote_counts poll_open = [0; 0]
  /\ vote_counts w' = [1; 0]
  /\ mem w' <> mem poll_open.
Proof.
  vm_compute. repeat split. discriminate.
Qed.

(** C2, as amended.  When an awaited store operation of [submitAnswer] or
    [createPoll] fails, the caller gets the error notice, what follows the
    failing operation is not performed, and what precedes it stays: nothing
    is rolled back.  For a vote that passes the checks: a failed lookup
    leaves the world as it was; a failed poll save leaves the store, the
    answered flag and the counter as they were, with the vote already added
    in memory; a failed respondent save leaves flag and counter as they
    were, with the vote added in memory and in the poll store, and so does,
    with a healthy store, the save of a record the schema refuses; when the
    record passes the schema, a failed listing of the active respondents
    leaves the vote fully applied, the notice taking the place of the
    result update.  For a poll creation outside an active poll: a failed
    flag reset leaves the world as it was; a failed save of the new poll
    leaves the slot and the timer as they were, with the flags and the
    counter already reset; a failed listing leaves the poll created and
    announced, without its result update. *)
Theorem store_failure_keeps_earlier_effects :
  (forall w sock sid answer p st i rd_ wr_,
      currentActivePoll (mem w) = Some p ->
      socket_studentId sock (rt w) = Some sid ->
      lookup sid w = Some st ->
      hasAnswered st = false ->
      findIndex (fun opt => String.eqb (text opt) answer) (options p)
      = Some i ->
      let submit := exec (submitAnswer sock (_id p) sid answer) w in
      let notice := [(to_socket sock, error msg_submit_failed)] in
      let p' := with_options p (vote_at i (options p)) in
      let voted :=
        mkMemory (Some p') (pollTimer (mem w))
                 (answeredStudentsCount (mem w)) in
      submit (mkOracle (true :: rd_) wr_) = sending w notice
      /\ submit (mkOracle (false :: rd_) (true :: wr_))
         = mkWorld (store w) voted (rt w) (emitted w ++ notice)
      /\ submit (mkOracle (false :: rd_) (false :: true :: wr_))
         = mkWorld
             (mkStore (students (store w)) (upsert_poll p' (polls (store w))))
             voted (rt w) (emitted w ++ notice)
      /\ (Student_validate st = false ->
          submit (mkOracle (false :: rd_) (false :: wr_))
          = mkWorld
              (mkStore (students (store w)) (upsert_poll p' (polls (store w))))
              voted (rt w) (emitted w ++ notice))
      /\ (Student_validate st = true ->
          submit (mkOracle (false :: true :: rd_) (false :: false :: wr_))
          = mkWorld (store (vote_applied w st p')) (mem (vote_applied w st p'))
                    (rt w) (emitted w ++ notice)))
  /\ (forall w sock pd now rd_ wr_,
         is_active (currentActivePoll (mem w)) = false ->
         let create := exec (createPoll sock pd now) w in
         let notice := [(to_socket sock, error msg_create_failed)] in
         let created := poll_created w pd now in
         create (mkOracle rd_ (true :: wr_)) = sending w notice
         /\ create (mkOracle rd_ (false :: true :: wr_))
            = mkWorld
                (mkStore
                   (update_all connected_filter (set_hasAnswered false)
                      (students (store w)))
                   (polls (store w)))
                (mkMemory (currentActivePoll (mem w)) (pollTimer (mem w)) 0)
                (mkRuntime (sockets (rt w)) (timers (rt w))
                   (nextTimer (rt w)) (S (nextObjectId (rt w))))
                (emitted w ++ notice)
         /\ create (mkOracle (true :: rd_) (false :: false :: wr_))
            = mkWorld (store created) (mem created) (rt created)
                (emitted w
                 ++ (to_all,
                     newPoll (Some (poll_brief (new_poll w pd now))) "active")
                    :: notice)).
Proof.
  split.
  - intros w sock sid answer p st i rd_ wr_ Hcur Hsock Hst Ha Hi.
    open_world w. cbn in Hcur, Hsock, Hst. subst cur.
    unfold submitAnswer, submitAnswer_body, vote_applied. mred.
    rewrite Hsock. cbn [opt_string_eqb]. rewrite String.eqb_refl.
    cbn [negb]. mred. rewrite Nat.eqb_refl. cbn [negb]. mred.
    rewrite Hst. mred. rewrite Ha. mred. rewrite Hi. mred.
    rewrite !validate_set_hasAnswered.
    destruct (Student_validate st); mred; repeat split;
      intros Hv; try discriminate Hv; reflexivity.
  - intros w sock pd now rd_ wr_ Hact.
    open_world w. cbn in Hact.
    unfold createPoll, createPoll_body, poll_created, new_poll. mred.
    destruct cur as [p|]; mred.
    + cbn in Hact. destruct (status p); [discriminate|]. mred.
      destruct tm; mred; repeat split; rewrite <- !app_assoc; reflexivity.
    + destruct tm; mred; repeat split; rewrite <- !app_assoc; reflexivity.
Qed.

Lemma store_failure_keeps_earlier_effects_witness :
  exec (submitAnswer "a" 0%nat "A" "4") poll_open
       (mkOracle [false] [true])
  = mkWorld (store poll_open)
      (mkMemory
         (Some (mkPoll 0%nat "2+2?" [mkOption "4" true 1; mkOption "5" false 0]
                       30 active 6 None))
         (Some 0%nat) 0)
      (rt poll_open)
      (emitted poll_open ++ [(to_socket "a", error msg_submit_failed)]).
Proof.
  destruct store_failure_keeps_earlier_effects as [H _].
  apply (H poll_open "a" "A" "4" _ _ 0%nat [] []
           eq_refl eq_refl eq_refl eq_refl eq_refl).
Defined.

(* ------------------------------------------------------------------ *)
(** * Reconnection *)
(* ------------------------------------------------------------------ *)

Lemma find_upsert_other sid st l :
  has_studentId sid st = false ->
  find (has_studentId sid) (upsert_student st l)
  = find (has_studentId sid) l.
Proof.
  intros H. induction l as [|x l IH]; cbn.
  - rewrite H. reflexivity.
  - destruct (has_studentId (studentId st) x) eqn:Hx; cbn.
    + rewrite H.
      unfold has_studentId in *. apply String.eqb_eq in Hx.
      rewrite Hx, H. reflexivity.
    + destruct (has_studentId sid x); [reflexivity|exact IH].
Qed.

Lemma find_update_first sid f g l st :
  (forall x, studentId (g x) = studentId x) ->
  find (has_studentId sid) l = Some st ->
  find (has_studentId sid) (update_first f g l) = Some st
  \/ find (has_studentId sid) (update_first f g l) = Some (g st).
Proof.
  intros Hg. induction l as [|x l IH]; cbn; [discriminate|].
  intros H. destruct (f x) eqn:Hf; cbn.
  - unfold has_studentId in *. rewrite Hg.
    destruct (String.eqb (studentId x) sid).
    + inversion H; subst. right. reflexivity.
    + left. exact H.
  - destruct (has_studentId sid x); [left; exact H|exact (IH H)].
Qed.

Lemma handler_presence_frame ev now w o sid st :
  presence_event ev = true ->
  lookup sid w = Some st ->
  mem (exec (handler ev now) w o) = mem w
  /\ exists st',
       lookup sid (exec (handler ev now) w o) = Some st'
       /\ hasAnswered st' = hasAnswered st.
Proof.
  intros Hev Hst. open_world w. destruct o as [tr tw].
  unfold lookup in *. cbn [students store] in Hst.
  destruct ev; try discriminate Hev; unfold_handlers.
  all: crunch; split; try reflexivity; eauto.
  all: try match goal with
       | |- context [update_first ?f ?g ?l] =>
           destruct (find_update_first sid f g l st
                       ltac:(intros []; reflexivity) Hst) as [E|E];
           rewrite E; eauto
       end.
  all: match goal with
       | |- context [upsert_student ?x ?l] =>
           destruct (has_studentId sid x) eqn:Hx;
           [ rewrite (find_upsert sid x l Hx)
           | rewrite (find_upsert_other sid x l Hx); eauto ]
       end.
  all: eexists; split; [reflexivity|]; cbn.
  all: cbn in Hx; unfold has_studentId in Hx; apply String.eqb_eq in Hx.
  all: try match goal with
       | H : find (has_studentId ?s) _ = Some ?s0 |- _ =>
           pose proof (find_has_studentId _ _ _ H) as Hs;
           unfold has_studentId in Hs; apply String.eqb_eq in Hs
       end.
  all: try congruence.
Qed.

Lemma step_presence_frame w i sid st :
  presence_event (in_event i) = true ->
  lookup sid w = Some st ->
  mem (step w i) = mem w
  /\ exists st',
       lookup sid (step w i) = Some st'
       /\ hasAnswered st' = hasAnswered st.
Proof.
  intros Hev Hst. unfold step.
  destruct (enabled (in_event i) w); eauto using handler_presence_frame.
Qed.

Lemma studentJoin_refreshes w o sock nm sid now st :
  lookup sid w = Some st ->
  lookup sid (exec (studentJoin sock nm sid now) w o) = Some st
  \/ lookup sid (exec (studentJoin sock nm sid now) w o)
     = Some (mkStudent (Some sock) (studentId st) (name st) now
                       (hasAnswered st) false).
Proof.
  intros Hst. open_world w. destruct o as [tr tw].
  unfold lookup in *. cbn [students store] in Hst.
  pose proof (find_has_studentId _ _ _ Hst) as Hs.
  unfold studentJoin. mred.
  destruct tr as [|[] tr]; mred; auto; rewrite Hst; mred.
  all: crunch; mred;
    first [left; exact Hst | right; apply find_upsert; exact Hs].
Qed.

(** C7.  Joining again under a known persistent id changes, in the record
    of that id, the socket id, the last-seen time and the kicked flag and
    nothing else.  Through any sequence of disconnections, connections and
    joins, under any behaviour of the store, the memory (the poll in the
    slot and its votes) and every known respondent's [hasAnswered] stay as
    they were; so a respondent who had answered and comes back on a socket
    bound to the same id gets the already-answered notice for a repeat
    submission against the same poll, and nothing else changes.  (Should
    the store fail the lookup of that submission, the notice is the
    server-error one; no vote is counted either way.) *)
Theorem reconnection_keeps_answered_flag :
  forall w inputs sid st,
    Forall (fun i => presence_event (in_event i) = true) inputs ->
    lookup sid w = Some st ->
    (forall sock nm now o,
        lookup sid (exec (studentJoin sock nm sid now) w o) = Some st
        \/ lookup sid (exec (studentJoin sock nm sid now) w o)
           = Some (mkStudent (Some sock) (studentId st) (name st) now
                             (hasAnswered st) false))
    /\ mem (run w inputs) = mem w
    /\ (exists st',
           lookup sid (run w inputs) = Some st'
           /\ hasAnswered st' = hasAnswered st)
    /\ (hasAnswered st = true ->
        forall sock p answer o,
          currentActivePoll (mem w) = Some p ->
          socket_studentId sock (rt (run w inputs)) = Some sid ->
          (hd false (rd o) = false ->
           submitAnswer sock (_id p) sid answer (mkEnv (run w inputs) o)
           = (Ret tt,
              mkEnv (sending (run w inputs)
                       [(to_socket sock, error msg_already_answered)])
                    (mkOracle (tl (rd o)) (wr o))))
          /\ (hd false (rd o) = true ->
              exec (submitAnswer sock (_id p) sid answer) (run w inputs) o
              = sending (run w inputs)
                  [(to_socket sock, error msg_submit_failed)])).
Proof.
  intros w inputs sid st Hall Hst.
  split; [intros; apply studentJoin_refreshes; exact Hst|].
  assert (H : mem (run w inputs) = mem w
              /\ exists st', lookup sid (run w inputs) = Some st'
                             /\ hasAnswered st' = hasAnswered st).
  { revert w st Hst.
    induction Hall as [|i inputs Hi _ IH]; intros w st Hst; cbn [run fold_left].
    - split; eauto.
    - destruct (step_presence_frame w i sid st Hi Hst)
        as [Hm [st1 [Hst1 Ha1]]].
      destruct (IH _ _ Hst1) as [Hm' [st2 [Hst2 Ha2]]].
      unfold run in *. split; [congruence|].
      exists st2. split; [assumption|congruence]. }
  destruct H as [Hm [st' [Hst' Ha']]].
  split; [exact Hm|]. split; [eauto|].
  intros Ha sock p answer o Hcur Hsock. split; intros Hrd.
  - apply submitAnswer_already; try assumption.
    + rewrite Hm. exact Hcur.
    + rewrite Hst'. congruence.
  - apply submitAnswer_lookup_fails; try assumption.
    rewrite Hm. exact Hcur.
Qed.

Lemma reconnection_keeps_answered_flag_witness :
  submitAnswer "a2" 0%nat "A" "5"
    (mkEnv (run after_first_vote ann_reconnects) no_faults)
  = (Ret tt,
     mkEnv (sending (run after_first_vote ann_reconnects)
              [(to_socket "a2", error msg_already_answered)])
           no_faults).
Proof.
  destruct (reconnection_keeps_answered_flag after_first_vote ann_reconnects
              "A" ann_answered ltac:(repeat constructor) eq_refl)
    as [_ [_ [_ H]]].
  exact (proj1 (H eq_refl "a2" _ "5" no_faults eq_refl eq_refl) eq_refl).
Defined.

(* ------------------------------------------------------------------ *)
(** * Closing a poll *)
(* ------------------------------------------------------------------ *)

Lemma endPoll_quiet w o pollId now p :
  currentActivePoll (mem w) = Some p ->
  _id p = pollId ->
  quiet o ->
  exec (endPoll pollId now) w o = poll_closed w p now.
Proof.
  intros Hcur Hid [Hr Hw]. open_world w. destruct o as [tr tw].
  cbn in Hcur, Hr, Hw. subst cur pollId.
  unfold endPoll, poll_closed. mred. rewrite Nat.eqb_refl. cbn [negb].
  crunch; try reflexivity.
  all: rewrite <- app_assoc; reflexivity.
Qed.

(** The final snapshot reports the sum of the votes as [totalVoters]. *)
Lemma final_totalVoters_is_sum w o pollId now p r :
  currentActivePoll (mem w) = Some p ->
  _id p = pollId ->
  quiet o ->
  In (to_all, pollEnded r) (emitted (exec (endPoll pollId now) w o)) ->
  ~ In (to_all, pollEnded r) (emitted w) ->
  fr_totalVoters r = totalVotes (options p)
  /\ pv_options (fr_poll r)
     = map (option_final (totalVotes (options p))) (options p).
Proof.
  intros Hcur Hid Hq Hin Hold.
  rewrite (endPoll_quiet w o pollId now p Hcur Hid Hq) in Hin.
  unfold poll_closed in Hin. cbn [emitted] in Hin.
  apply in_app_or in Hin. destruct Hin as [Hin|Hin]; [contradiction|].
  cbn [In] in Hin. destruct Hin as [Hin|[Hin|[]]]; inversion Hin; subst.
  split; reflexivity.
Qed.

(** With no vote at all every final percentage is 0. *)
Lemma final_percentage_without_votes o :
  ov_percentage (option_final 0 o) = Some (Js.of_int 0).
Proof. reflexivity. Qed.

Lemma same_float_eq x y : same_float x y = true -> x = y.
Proof.
  destruct x as [a|a| |a m e], y as [b|b| |b n f]; cbn; try discriminate;
    intros H; try reflexivity.
  - apply Bool.eqb_prop in H. congruence.
  - apply Bool.eqb_prop in H. congruence.
  - apply andb_prop in H. destruct H as [H He].
    apply andb_prop in H. destruct H as [Ha Hm].
    apply Bool.eqb_prop in Ha. apply Pos.eqb_eq in Hm. apply Z.eqb_eq in He.
    congruence.
Qed.

(** Below forty voters the computed percentage is the intended one. *)
Lemma percentage_exact_below_40 v t :
  0 <= v <= t -> 0 < t < 40 ->
  Js.percentage v t = Js.of_int (Js.exact_percentage v t).
Proof.
  intros Hv Ht.
  assert (H : percentages_exact_below 40 = true) by (vm_compute; reflexivity).
  unfold percentages_exact_below in H.
  rewrite forallb_forall in H.
  specialize (H (Z.to_nat t)).
  rewrite forallb_forall in H.
  specialize (H ltac:(apply in_seq; lia) (Z.to_nat v) ltac:(apply in_seq; lia)).
  rewrite !Z2Nat.id in H by lia.
  apply same_float_eq, H.
Qed.

(** C4 at forty voters.  23 votes of 40 are 57.5 percent, which rounds to
    58, in exact arithmetic and as [Math.round(100 * 23 / 40)] alike; the
    source divides first, the quotient 23/40 is not a double, its product
    with 100 falls just below 57.5, and the final snapshot carries 57.
    (The total is the sum of the votes, and 17 of 40 gives the intended
    43.) *)
Theorem final_percentage_23_of_40 :
  pollEnded_of (emitted (run initial poll_23_of_40)) = [final_23_of_40]
  /\ fr_totalVoters final_23_of_40 = 23 + 17
  /\ map ov_votes (pv_options (fr_poll final_23_of_40)) = [Some 23; Some 17]
  /\ percentages (fr_poll final_23_of_40)
     = [Some (Js.of_int 57); Some (Js.of_int 43)]
  /\ Js.exact_percentage 23 40 = 58
  /\ Js.rounded_ratio 23 40 = Js.of_int 58
  /\ Js.exact_percentage 17 40 = 43.
Proof.
  repeat split; vm_compute; reflexivity.
Qed.

(* ------------------------------------------------------------------ *)
(** * The result updates *)
(* ------------------------------------------------------------------ *)

Lemma createPoll_quiet w o sock pd now :
  is_active (currentActivePoll (mem w)) = false ->
  quiet o ->
  exec (createPoll sock pd now) w o = poll_created w pd now.
Proof.
  intros Hact [Hr Hw]. open_world w. destruct o as [tr tw].
  cbn in Hact, Hr, Hw.
  unfold createPoll, createPoll_body, poll_created, new_poll. mred.
  crunch; try discriminate Hact; try reflexivity.
  all: try (rewrite <- !app_assoc; reflexivity).
  all: cbn in Hact;
    match goal with H : status _ = active |- _ => rewrite H in Hact end;
    discriminate Hact.
Qed.

(** C6 on the scenario of the spec.  The result update broadcast when the
    poll opens carries the options with their vote counts, the answered
    count and the number of active respondents; it has no [totalVoters] and
    no percentage.  The update broadcast after the first vote has both. *)
Theorem opening_update_lacks_totals :
  pollUpdates_of (emitted (run initial classroom)) = [opening_update]
  /\ pu_totalVoters opening_update = None
  /\ percentages (pu_poll opening_update) = [None; None]
  /\ map ov_votes (pv_options (pu_poll opening_update)) = [Some 0; Some 0]
  /\ pu_answeredCount opening_update = 0
  /\ pu_totalStudents opening_update = 2%nat
  /\ pollUpdates_of (emitted (run initial first_vote))
     = [opening_update; first_vote_update]
  /\ pu_totalVoters first_vote_update = Some 1
  /\ percentages (pu_poll first_vote_update)
     = [Some (Js.of_int 100); Some (Js.of_int 0)].
Proof.
  repeat split; vm_compute; reflexivity.
Qed.

(* ------------------------------------------------------------------ *)
(** * Respondent records: one per id, never removed *)
(* ------------------------------------------------------------------ *)

Lemma ids_update_all f g l :
  (forall x, studentId (g x) = studentId x) ->
  map studentId (update_all f g l) = map studentId l.
Proof.
  intros Hg. unfold update_all. rewrite map_map. apply map_ext.
  intros x. destruct (f x); auto.
Qed.

Lemma ids_update_first f g l :
  (forall x, studentId (g x) = studentId x) ->
  map studentId (update_first f g l) = map studentId l.
Proof.
  intros Hg. induction l as [|x l IH]; cbn; [reflexivity|].
  destruct (f x); cbn; [rewrite Hg|rewrite IH]; reflexivity.
Qed.

Lemma ids_upsert st l :
  map studentId (upsert_student st l) = map studentId l
  \/ (~ In (studentId st) (map studentId l)
      /\ map studentId (upsert_student st l)
         = map studentId l ++ [studentId st]).
Proof.
  induction l as [|x l IH]; cbn.
  - right. split; [tauto|reflexivity].
  - unfold has_studentId. destruct (String.eqb_spec (studentId x) (studentId st)) as [E|E]; cbn.
    + left. congruence.
    + destruct IH as [IH|[Hn IH]]; [left; rewrite IH; reflexivity|].
      right. split; [intros [H|H]; auto|rewrite IH; reflexivity].
Qed.

Lemma ids_extend_upsert st l : ids_extend (map studentId l) (map studentId (upsert_student st l)).
Proof.
  destruct (ids_upsert st l) as [H|[Hn H]]; [left; exact H|].
  right. eauto.
Qed.

Lemma handler_extends_ids ev now w o :
  ids_extend (ids w) (ids (exec (handler ev now) w o)).
Proof.
  unfold ids. open_world w. destruct o as [tr tw].
  destruct ev; unfold_handlers.
  all: crunch; cbn [students store].
  all: rewrite ?ids_update_first, ?ids_update_all by (intros []; reflexivity).
  all: try (left; reflexivity).
  all: apply ids_extend_upsert.
Qed.

Lemma step_extends_ids w i : ids_extend (ids w) (ids (step w i)).
Proof.
  unfold step. destruct (enabled (in_event i) w);
    [apply handler_extends_ids|left; reflexivity].
Qed.

Lemma run_extends_ids inputs :
  forall w,
    NoDup (ids w) ->
    NoDup (ids (run w inputs))
    /\ exists new, ids (run w inputs) = ids w ++ new.
Proof.
  induction inputs as [|i inputs IH]; intros w Hw; cbn.
  - split; [exact Hw|]. exists []. symmetry. apply app_nil_r.
  - assert (Hs : NoDup (ids (step w i))
                 /\ exists new, ids (step w i) = ids w ++ new).
    { destruct (step_extends_ids w i) as [E|[s [Hn E]]]; rewrite E.
      - split; [exact Hw|]. exists []. symmetry. apply app_nil_r.
      - split; [|eauto].
        apply NoDup_app; [exact Hw|repeat constructor; intros []|].
        intros x Hx [<-|[]]. exact (Hn Hx). }
    destruct Hs as [Hnd [new1 E1]].
    destruct (IH _ Hnd) as [Hnd' [new2 E2]].
    split; [exact Hnd'|]. exists (new1 ++ new2).
    unfold run in *. rewrite E2, E1, app_assoc. reflexivity.
Qed.

(** X3.  In every reachable state, under any behaviour of the store, no
    two respondent records carry the same persistent id; and whatever
    happens next, the records on file stay on file, in their order, under
    their ids: later states only append. *)
Theorem respondent_ids_unique_and_kept :
  forall w inputs,
    reachable w ->
    NoDup (ids w)
    /\ NoDup (ids (run w inputs))
    /\ exists new, ids (run w inputs) = ids w ++ new.
Proof.
  intros w inputs [pre ->].
  assert (H : NoDup (ids (run initial pre)))
    by (apply run_extends_ids; constructor).
  split; [exact H|]. apply run_extends_ids, H.
Qed.

Lemma respondent_ids_unique_and_kept_witness :
  reachable after_first_vote
  /\ NoDup (ids (run after_first_vote ann_reconnects)).
Proof.
  assert (Hr : reachable after_first_vote) by (exists first_vote; reflexivity).
  split; [exact Hr|].
  exact (proj1 (proj2 (respondent_ids_unique_and_kept
                         after_first_vote ann_reconnects Hr))).
Defined.

(* ------------------------------------------------------------------ *)
(** * The close timer *)
(* ------------------------------------------------------------------ *)

Lemma handler_keeps_timer ev now w o :
  timer_inv w -> timer_inv (exec (handler ev now) w o).
Proof.
  intros H. unfold timer_inv in H. open_world w. destruct o as [tr tw].
  cbn [timers rt pollTimer mem currentActivePoll] in H.
  destruct ti as [|[h d] [|? ?]]; [| |contradiction].
  - destruct ev; unfold_handlers.
    all: crunch; unfold timer_inv; cbn; eauto 10.
  - destruct H as [-> [p [-> [Hs ->]]]].
    destruct ev; unfold_handlers.
    all: crunch; unfold timer_inv; cbn; rewrite ?Nat.eqb_refl; cbn;
      try congruence; eauto 10.
    all: repeat match goal with
           | |- context [(?a =? ?b)%nat] => destruct (a =? b)%nat eqn:?
           end; cbn; rewrite ?Nat.eqb_refl; cbn; try congruence; eauto 10.
Qed.

Lemma reachable_timer_inv w : reachable w -> timer_inv w.
Proof.
  intros [inputs ->]. unfold run.
  assert (H : timer_inv initial) by exact I.
  revert H. generalize initial.
  induction inputs as [|i inputs IH]; intros w H; cbn; [exact H|].
  apply IH. unfold step.
  destruct (enabled (in_event i) w); [apply handler_keeps_timer|]; exact H.
Qed.

Lemma armed_shape w h :
  timer_inv w ->
  is_armed h w = true ->
  exists p,
    timers (rt w) = [(h, timer_delay (duration p * 1000))]
    /\ pollTimer (mem w) = Some h
    /\ currentActivePoll (mem w) = Some p
    /\ status p = active.
Proof.
  unfold timer_inv, is_armed. intros H Ha.
  destruct (timers (rt w)) as [|[h' d] [|? ?]]; [discriminate| |contradiction].
  cbn in Ha. rewrite orb_false_r in Ha. apply Nat.eqb_eq in Ha. subst h'.
  destruct H as [Ht [p [Hp [Hs ->]]]]. eauto.
Qed.

(** X1.  In every reachable state, under any behaviour of the store, an
    armed close timer is the only one, it is the one [pollTimer] holds, the
    slot holds a poll whose status is active, and the delay is the one Node
    arms for that poll's duration in milliseconds (the duration times 1000
    when that lies between 1 and 2^31 - 1, and 1 otherwise): a timer left
    over from an earlier poll never exists, and the timer callback never
    finds the slot empty. *)
Theorem armed_timer_belongs_to_active_poll :
  forall w h,
    reachable w ->
    is_armed h w = true ->
    exists p,
      timers (rt w) = [(h, timer_delay (duration p * 1000))]
      /\ pollTimer (mem w) = Some h
      /\ currentActivePoll (mem w) = Some p
      /\ status p = active.
Proof.
  intros w h Hr Ha. apply armed_shape; [apply reachable_timer_inv|]; assumption.
Qed.

Lemma armed_timer_belongs_to_active_poll_witness :
  reachable after_first_vote
  /\ is_armed 0 after_first_vote = true
  /\ exists p,
       timers (rt after_first_vote)
       = [(0%nat, timer_delay (duration p * 1000))]
       /\ pollTimer (mem after_first_vote) = Some 0%nat
       /\ currentActivePoll (mem after_first_vote) = Some p
       /\ status p = active.
Proof.
  assert (Hr : reachable after_first_vote) by (exists first_vote; reflexivity).
  split; [exact Hr|]. split; [reflexivity|].
  exact (armed_timer_belongs_to_active_poll after_first_vote 0%nat Hr eq_refl).
Defined.

(** X2.  When the close timer fires, the store, the memory and the runtime
    end up exactly as after an [endPoll] message for the poll in the slot
    handled at the same moment under the same behaviour of the store; the
    messages sent are the same too, except that a failure is reported to
    the socket of the explicit request and to nobody when the timer
    fired. *)
Theorem timeout_closes_like_endPoll :
  forall w h sock now o,
    reachable w ->
    is_armed h w = true ->
    exists p,
      currentActivePoll (mem w) = Some p
      /\ let wt := exec (handler (EvTimeout h) now) w o in
         let we := exec (handler (EvEndPoll sock (_id p)) now) w o in
         store wt = store we
         /\ mem wt = mem we
         /\ rt wt = rt we
         /\ (emitted we = emitted wt
             \/ emitted we
                = emitted wt ++ [(to_socket sock, error msg_end_failed)]).
Proof.
  intros w h sock now o Hr Ha.
  destruct (armed_shape w h (reachable_timer_inv w Hr) Ha)
    as [p [Ht [Hp [Hc Hs]]]].
  exists p. split; [exact Hc|].
  open_world w. destruct o as [tr tw]. cbn in Ht, Hp, Hc. subst.
  unfold_handlers. mred. rewrite !Nat.eqb_refl. cbn [negb].
  crunch; cbn; rewrite ?Nat.eqb_refl; cbn; repeat split; auto.
Qed.

Lemma timeout_closes_like_endPoll_witness :
  reachable after_first_vote
  /\ is_armed 0 after_first_vote = true
  /\ store (exec (handler (EvTimeout 0) 9) after_first_vote no_faults)
     = store (exec (handler (EvEndPoll "t" 0%nat) 9) after_first_vote
                   no_faults).
Proof.
  assert (Hr : reachable after_first_vote) by (exists first_vote; reflexivity).
  split; [exact Hr|]. split; [reflexivity|].
  destruct (timeout_closes_like_endPoll after_first_vote 0%nat "t" 9
              no_faults Hr eq_refl) as [p [Hp [Hs _]]].
  injection Hp as <-. exact Hs.
Defined.

(* ------------------------------------------------------------------ *)
(** * What joins, disconnections and kicks leave alone *)
(* ------------------------------------------------------------------ *)

Lemma identity_update_all f g l :
  (forall x, identity (g x) = identity x) ->
  map identity (update_all f g l) = map identity l.
Proof.
  intros Hg. unfold update_all. rewrite map_map. apply map_ext.
  intros x. destruct (f x); auto.
Qed.

Lemma identity_update_first f g l :
  (forall x, identity (g x) = identity x) ->
  map identity (update_first f g l) = map identity l.
Proof.
  intros Hg. induction l as [|x l IH]; cbn; [reflexivity|].
  destruct (f x); cbn; [rewrite Hg|rewrite IH]; reflexivity.
Qed.

Lemma identity_upsert_known sid st st' l :
  find (has_studentId sid) l = Some st ->
  identity st' = identity st ->
  map identity (upsert_student st' l) = map identity l.
Proof.
  intros Hf Hi.
  assert (Hs : studentId st = sid).
  { apply find_has_studentId in Hf. apply String.eqb_eq in Hf. exact Hf. }
  assert (Hs' : studentId st' = sid).
  { unfold identity in Hi. congruence. }
  induction l as [|x l IH]; cbn in *; [discriminate|].
  rewrite Hs'. destruct (has_studentId sid x).
  - inversion Hf; subst x. cbn. rewrite Hi. reflexivity.
  - cbn. rewrite (IH Hf). reflexivity.
Qed.

Lemma upsert_unknown sid st' l :
  find (has_studentId sid) l = None ->
  studentId st' = sid ->
  upsert_student st' l = l ++ [st'].
Proof.
  intros Hf Hs. induction l as [|x l IH]; cbn in *; [reflexivity|].
  rewrite Hs. destruct (has_studentId sid x); [discriminate|].
  rewrite (IH Hf). reflexivity.
Qed.

(** X13.  A connection, a join, a disconnection or a kick, whatever the
    store does meanwhile, leaves the memory (poll, votes, timer handle,
    answered counter), the poll collection and the armed timers as they
    were, and changes no respondent's id, name or answered flag: the
    records keep their order and at most one new record is appended. *)
Theorem registry_events_leave_polls_alone :
  forall w i,
    registry_event (in_event i) = true ->
    mem (step w i) = mem w
    /\ polls (store (step w i)) = polls (store w)
    /\ timers (rt (step w i)) = timers (rt w)
    /\ exists new,
         map identity (students (store (step w i)))
         = map identity (students (store w)) ++ new.
Proof.
  intros w [ev now o] Hev. unfold step. cbn [in_event in_now in_oracle] in *.
  destruct (enabled ev w);
    [|repeat split; exists []; symmetry; apply app_nil_r].
  open_world w. destruct o as [tr tw].
  destruct ev; try discriminate Hev; unfold_handlers.
  all: crunch; cbn [mem store polls students rt timers];
    repeat split; try reflexivity.
  all: rewrite ?identity_update_first by (intros []; reflexivity).
  all: try (exists []; symmetry; apply app_nil_r).
  all: try (erewrite identity_upsert_known by (eauto; reflexivity);
            exists []; symmetry; apply app_nil_r).
  all: erewrite upsert_unknown by (eauto; reflexivity);
    rewrite map_app; eauto.
Qed.

Lemma registry_events_leave_polls_alone_witness :
  registry_event (EvDisconnect "a") = true
  /\ mem (step after_first_vote (at_ 8 (EvDisconnect "a")))
     = mem after_first_vote.
Proof.
  split; [reflexivity|].
  exact (proj1 (registry_events_leave_polls_alone after_first_vote
                  (at_ 8 (EvDisconnect "a")) eq_refl)).
Defined.

(* ------------------------------------------------------------------ *)
(** * The identity bound to a socket *)
(* ------------------------------------------------------------------ *)

Lemma find_socket_bound sock sid l :
  is_some (find (fun s => String.eqb (sock_id s) sock) l) = true ->
  match find (fun s => String.eqb (sock_id s) sock)
             (update_all (fun s => String.eqb (sock_id s) sock)
                         (fun s => mkSocket (sock_id s) (Some sid)) l)
  with
  | Some s => sock_studentId s
  | None => None
  end = Some sid.
Proof.
  induction l as [|x l IH]; cbn; [discriminate|].
  destruct (String.eqb (sock_id x) sock) eqn:E; cbn; rewrite E; auto.
Qed.

Lemma find_socket_other sock sock' sid l :
  sock' <> sock ->
  find (fun s => String.eqb (sock_id s) sock')
       (update_all (fun s => String.eqb (sock_id s) sock)
                   (fun s => mkSocket (sock_id s) (Some sid)) l)
  = find (fun s => String.eqb (sock_id s) sock') l.
Proof.
  intros Hne. induction l as [|x l IH]; cbn; [reflexivity|].
  destruct (String.eqb_spec (sock_id x) sock) as [E|E]; cbn.
  - destruct (String.eqb_spec (sock_id x) sock') as [E'|E']; [congruence|].
    exact IH.
  - destruct (String.eqb (sock_id x) sock'); [reflexivity|exact IH].
Qed.

Lemma submitAnswer_mismatch w o sock pollId sid answer :
  socket_studentId sock (rt w) <> Some sid ->
  submitAnswer sock pollId sid answer (mkEnv w o)
  = (Ret tt, mkEnv (sending w [(to_socket sock, error msg_mismatch)]) o).
Proof.
  intros H. open_world w. unfold submitAnswer. mred.
  destruct (socket_studentId sock _) as [s|] eqn:E; cbn.
  - destruct (String.eqb_spec s sid) as [->|Hne]; [congruence|reflexivity].
  - reflexivity.
Qed.

(** X9.  A [studentJoin] on a connected socket binds the socket to the id
    it carries even when the store fails the join, and changes the binding
    of no other socket.  From then on a submission on that socket under
    any other id is answered with the mismatch notice alone: state and
    store are not touched, the store is not even consulted. *)
Theorem join_binds_socket_identity :
  forall w sock nm sid now o,
    is_connected sock w = true ->
    let w1 := exec (studentJoin sock nm sid now) w o in
    socket_studentId sock (rt w1) = Some sid
    /\ (forall s, s <> sock ->
                  socket_studentId s (rt w1) = socket_studentId s (rt w))
    /\ (forall sid' pollId answer o',
           sid' <> sid ->
           submitAnswer sock pollId sid' answer (mkEnv w1 o')
           = (Ret tt,
              mkEnv (sending w1 [(to_socket sock, error msg_mismatch)]) o')).
Proof.
  intros w sock nm sid now o Hc w1.
  assert (Hb : socket_studentId sock (rt w1) = Some sid
               /\ forall s, s <> sock ->
                    socket_studentId s (rt w1) = socket_studentId s (rt w)).
  { subst w1. unfold is_connected, find_socket in Hc.
    open_world w. destruct o as [tr tw]. cbn [rt sockets] in Hc.
    unfold studentJoin.
    crunch; cbn [rt]; unfold socket_studentId, find_socket; cbn [sockets];
      (split; [apply find_socket_bound; exact Hc
              |intros sx Hsx; rewrite find_socket_other by exact Hsx;
               reflexivity]). }
  destruct Hb as [Hb Ho]. split; [exact Hb|]. split; [exact Ho|].
  intros sid' pollId answer o' Hne.
  apply submitAnswer_mismatch. rewrite Hb. congruence.
Qed.

Lemma join_binds_socket_identity_witness :
  is_connected "b" poll_open = true
  /\ submitAnswer "b" 0%nat "A" "4"
       (mkEnv (exec (studentJoin "b" "Bob" "B" 7) poll_open no_faults)
              no_faults)
     = (Ret tt,
        mkEnv (sending (exec (studentJoin "b" "Bob" "B" 7) poll_open
                             no_faults)
                 [(to_socket "b", error msg_mismatch)])
              no_faults).
Proof.
  split; [reflexivity|].
  destruct (join_binds_socket_identity poll_open "b" "Bob" "B" 7 no_faults
              eq_refl) as [_ [_ H]].
  apply H. discriminate.
Defined.

(* ------------------------------------------------------------------ *)
(** * Joining *)
(* ------------------------------------------------------------------ *)

(** X12.  When the store answers and the record to be written passes the
    validation of the schema (socket id, persistent id and name are not
    empty), a join leaves exactly one record under the id: it carries the
    joining socket and the time of the join, is not kicked, keeps name and
    answered flag if the id was known and starts with the given name and no
    answer otherwise; the respondent is in the presence list broadcast
    last, and no other respondent's record is touched. *)
Theorem join_then_lookup :
  forall w sock nm sid now o,
    quiet o ->
    Student_validate (joined_record w sock nm sid now) = true ->
    let w' := exec (studentJoin sock nm sid now) w o in
    lookup sid w' = Some (joined_record w sock nm sid now)
    /\ (forall sid2, sid2 <> sid -> lookup sid2 w' = lookup sid2 w)
    /\ exists before present,
         emitted w'
         = emitted w ++ before ++ [(to_all, studentListUpdate present)]
         /\ (exists st', lookup sid w' = Some st' /\ In st' present)
         /\ present = filter connected_filter (students (store w')).
Proof.
  intros w sock nm sid now [tr tw] [Hr Hw] Hv w'. subst w'.
  open_world w. cbn [rd wr] in Hr, Hw. unfold joined_record, lookup in *.
  cbn [students store] in *.
  unfold studentJoin.
  crunch; cbn [students store emitted].
  all: lookups_in Hv.
  all: try match goal with
           | H : find (has_studentId _) _ = Some ?s |- _ =>
               let E := fresh "E" in
               pose proof (find_has_studentId _ _ _ H) as E;
               apply String.eqb_eq in E; rewrite ?E;
               try (rewrite <- E in Hv; congruence)
           end.
  all: try congruence.
  all: match goal with
       | |- find _ (upsert_student ?x _) = _ /\ _ =>
           assert (Hn : has_studentId sid x = true)
             by (unfold has_studentId; cbn; apply String.eqb_refl)
       end.
  all: (split; [apply find_upsert; exact Hn|]).
  all: (split;
        [intros sid2 H2; apply find_upsert_other;
         unfold has_studentId; cbn; apply String.eqb_neq; congruence|]).
  all: rewrite <- ?app_assoc; do 2 eexists;
    (split; [reflexivity|]); (split; [|reflexivity]).
  all: eexists; (split; [apply find_upsert; exact Hn|]).
  all: apply filter_In; (split; [|reflexivity]).
  all: eapply find_some; apply find_upsert; exact Hn.
Qed.

Lemma join_then_lookup_witness :
  quiet no_faults
  /\ Student_validate (joined_record poll_open "t" "Cy" "C" 7) = true
  /\ lookup "C" (exec (studentJoin "t" "Cy" "C" 7) poll_open no_faults)
     = Some (mkStudent (Some "t") "C" "Cy" 7 false false).
Proof.
  assert (Hq : quiet no_faults) by (split; reflexivity).
  split; [exact Hq|]. split; [reflexivity|].
  exact (proj1 (join_then_lookup poll_open "t" "Cy" "C" 7 no_faults Hq
                  eq_refl)).
Defined.

(* ------------------------------------------------------------------ *)
(** * The poll collection and the memory *)
(* ------------------------------------------------------------------ *)

Lemma ids_upsert_poll_in p l :
  In (_id p) (map _id l) -> map _id (upsert_poll p l) = map _id l.
Proof.
  induction l as [|x l IH]; cbn; [tauto|].
  destruct (Nat.eqb_spec (_id x) (_id p)) as [E|E]; cbn.
  - congruence.
  - intros [H|H]; [congruence|]. rewrite (IH H). reflexivity.
Qed.

Lemma upsert_poll_fresh p l :
  ~ In (_id p) (map _id l) -> upsert_poll p l = l ++ [p].
Proof.
  induction l as [|x l IH]; cbn; [reflexivity|].
  intros H. destruct (Nat.eqb_spec (_id x) (_id p)) as [E|E]; [tauto|].
  rewrite IH by tauto. reflexivity.
Qed.

Lemma In_upsert_poll p l : In p (upsert_poll p l).
Proof.
  induction l as [|x l IH]; cbn; [auto|].
  destruct (Nat.eqb (_id x) (_id p)); cbn; auto.
Qed.

Lemma Forall_upsert_poll (P : Poll -> Prop) p l :
  P p -> Forall P l -> Forall P (upsert_poll p l).
Proof.
  intros Hp Hl. induction Hl; cbn; [auto|].
  destruct (Nat.eqb (_id x) (_id p)); constructor; auto.
Qed.

Lemma In_upsert_poll_other p q l :
  In q l -> _id q <> _id p -> In q (upsert_poll p l).
Proof.
  intros Hq Hne. induction l as [|x l IH]; cbn in *; [tauto|].
  destruct (Nat.eqb_spec (_id x) (_id p)) as [E|E]; cbn.
  - destruct Hq as [->|Hq]; [congruence|auto].
  - destruct Hq as [->|Hq]; auto.
Qed.

Lemma upsert_poll_closes p' i l :
  NoDup (map _id l) ->
  Forall (fun q => _id q = i \/ status q = completed) l ->
  _id p' = i ->
  status p' = completed ->
  Forall (fun q => status q = completed) (upsert_poll p' l).
Proof.
  intros Hnd Hl Hi Hs. induction Hl as [|x l Hx Hl IH]; cbn in *.
  - auto.
  - inversion Hnd as [|? ? Hnx Hnd']; subst.
    destruct (Nat.eqb_spec (_id x) (_id p')) as [E|E].
    + constructor; [exact Hs|].
      rewrite Forall_forall in *. intros q Hq.
      destruct (Hl q Hq) as [Eq|Eq]; [|exact Eq].
      exfalso. apply Hnx. rewrite E, <- Eq. apply in_map, Hq.
    + constructor; [destruct Hx; congruence|]. apply IH. exact Hnd'.
Qed.

Lemma same_id_same_poll l a b :
  NoDup (map _id l) -> In a l -> In b l -> _id a = _id b -> a = b.
Proof.
  induction l as [|x l IH]; cbn; [tauto|].
  intros Hnd Ha Hb E. inversion Hnd as [|? ? Hnx Hnd']; subst.
  destruct Ha as [->|Ha], Hb as [->|Hb]; auto.
  - exfalso. apply Hnx. rewrite E. apply in_map, Hb.
  - exfalso. apply Hnx. rewrite <- E. apply in_map, Ha.
Qed.

Lemma fresh_id next ps :
  Forall (fun q => (_id q < next)%nat) ps -> ~ In next (map _id ps).
Proof.
  intros H Hin. apply in_map_iff in Hin. destruct Hin as [q [E Hq]].
  rewrite Forall_forall in H. specialize (H q Hq). lia.
Qed.

Lemma sync_vote ps next p p' :
  in_sync ps next (Some p) ->
  _id p' = _id p ->
  status p' = status p ->
  in_sync (upsert_poll p' ps) next (Some p').
Proof.
  intros [Hnd [Hb [Hs [Hin Hall]]]] Hi Hst.
  assert (Hlt : (_id p < next)%nat)
    by (rewrite Forall_forall in Hb; exact (Hb p Hin)).
  split; [|split; [|split; [|split]]].
  - rewrite ids_upsert_poll_in; [exact Hnd|].
    rewrite Hi. apply in_map, Hin.
  - apply Forall_upsert_poll; [lia|exact Hb].
  - congruence.
  - apply In_upsert_poll.
  - apply Forall_upsert_poll; [auto|]. rewrite Hi. exact Hall.
Qed.

Lemma sync_create ps p' :
  in_sync ps (_id p') None ->
  status p' = active ->
  in_sync (upsert_poll p' ps) (S (_id p')) (Some p').
Proof.
  intros [Hnd [Hb Hall]] Hst.
  pose proof (fresh_id _ _ Hb) as Hf.
  rewrite (upsert_poll_fresh p' ps Hf).
  split; [|split; [|split; [|split]]].
  - rewrite map_app. apply NoDup_app; [exact Hnd|repeat constructor; intros []|].
    intros x Hx [<-|[]]. exact (Hf Hx).
  - apply Forall_app. split; [|repeat constructor].
    eapply Forall_impl; [|exact Hb]. cbn. intros; lia.
  - exact Hst.
  - apply in_or_app. right. left. reflexivity.
  - apply Forall_app. split; [|repeat constructor; auto].
    eapply Forall_impl; [|exact Hall]. cbn. auto.
Qed.

Lemma sync_close ps next p now :
  in_sync ps next (Some p) ->
  in_sync (upsert_poll (close_poll p now) ps) next None.
Proof.
  intros [Hnd [Hb [Hs [Hin Hall]]]].
  assert (Hlt : (_id p < next)%nat)
    by (rewrite Forall_forall in Hb; exact (Hb p Hin)).
  split; [|split].
  - rewrite ids_upsert_poll_in; [exact Hnd|]. cbn. apply in_map, Hin.
  - apply Forall_upsert_poll; [exact Hlt|exact Hb].
  - apply (upsert_poll_closes (close_poll p now) (_id p));
      [exact Hnd|exact Hall|reflexivity|reflexivity].
Qed.

Lemma kept_upsert ps next p p' :
  in_sync ps next (Some p) ->
  _id p' = _id p ->
  closed_kept ps (upsert_poll p' ps).
Proof.
  intros [Hnd [_ [Hs [Hin _]]]] Hi q Hq Hc.
  apply In_upsert_poll_other; [exact Hq|].
  intros E. rewrite Hi in E.
  rewrite (same_id_same_poll ps q p Hnd Hq Hin E) in Hc. congruence.
Qed.

Lemma kept_create ps p' :
  in_sync ps (_id p') None -> closed_kept ps (upsert_poll p' ps).
Proof.
  intros [_ [Hb _]] q Hq _.
  rewrite (upsert_poll_fresh p' ps (fresh_id _ _ Hb)).
  apply in_or_app. left. exact Hq.
Qed.

Lemma handler_keeps_sync ev now w o :
  silent (wr o) ->
  polls_in_sync w ->
  polls_in_sync (exec (handler ev now) w o)
  /\ closed_kept (polls (store w)) (polls (store (exec (handler ev now) w o))).
Proof.
  intros Hw H. unfold polls_in_sync in H. open_world w. destruct o as [tr tw].
  cbn [polls store rt nextObjectId mem currentActivePoll wr] in H, Hw.
  destruct ev; unfold_handlers.
  all: crunch; unfold polls_in_sync;
    cbn [polls store rt nextObjectId mem currentActivePoll].
  all: try (split; [exact H|intros q Hq _; exact Hq]).
  all: try (split; [eapply sync_vote; [exact H|reflexivity|reflexivity]
                   |eapply kept_upsert; [exact H|reflexivity]]).
  all: try (split; [eapply sync_close; exact H
                   |eapply kept_upsert; [exact H|reflexivity]]).
  all: try match goal with
           | H : in_sync _ _ (Some ?p), E : status ?p = completed |- _ =>
               exfalso; destruct H as [_ [_ [Hst _]]];
               rewrite E in Hst; discriminate Hst
           end.
  all: split;
    [apply (sync_create ps (mkPoll no _ _ _ active _ None));
     [exact H|reflexivity]
    |apply (kept_create ps (mkPoll no _ _ _ active _ None)); exact H].
Qed.

Lemma run_keeps_sync inputs :
  writes_succeed inputs ->
  forall w,
    polls_in_sync w ->
    polls_in_sync (run w inputs)
    /\ closed_kept (polls (store w)) (polls (store (run w inputs))).
Proof.
  induction 1 as [|i inputs Hi _ IH]; intros w Hw; cbn.
  - split; [exact Hw|intros q Hq _; exact Hq].
  - assert (Hs : polls_in_sync (step w i)
                 /\ closed_kept (polls (store w)) (polls (store (step w i)))).
    { unfold step. destruct (enabled (in_event i) w).
      - apply handler_keeps_sync; assumption.
      - split; [exact Hw|intros q Hq _; exact Hq]. }
    destruct Hs as [Hs Hk]. destruct (IH _ Hs) as [Hs' Hk'].
    split; [exact Hs'|]. intros q Hq Hc. apply Hk'; auto.
Qed.

Lemma initial_in_sync : polls_in_sync initial.
Proof. repeat split; constructor. Qed.



(** X5.  On runs whose store writes succeed, a poll stored with status
    completed is never modified or removed afterwards: it is in the
    collection, field for field, in every later state. *)
Theorem completed_polls_are_kept :
  forall before after q,
    writes_succeed before ->
    writes_succeed after ->
    In q (polls (store (run initial before))) ->
    status q = completed ->
    In q (polls (store (run (run initial before) after))).
Proof.
  intros before after q Hb Ha Hq Hc.
  destruct (run_keeps_sync before Hb initial initial_in_sync) as [Hs _].
  destruct (run_keeps_sync after Ha _ Hs) as [_ Hk].
  exact (Hk q Hq Hc).
Qed.

Lemma completed_polls_are_kept_witness :
  writes_succeed closed_run
  /\ writes_succeed reopen
  /\ In closed_2plus2 (polls (store (run (run initial closed_run) reopen))).
Proof.
  assert (Hb : writes_succeed closed_run) by (repeat constructor).
  assert (Ha : writes_succeed reopen) by (repeat constructor).
  assert (Hq : In closed_2plus2 (polls (store (run initial closed_run))))
    by (vm_compute; left; reflexivity).
  split; [exact Hb|]. split; [exact Ha|].
  exact (completed_polls_are_kept closed_run reopen closed_2plus2 Hb Ha Hq
           eq_refl).
Defined.

(* ------------------------------------------------------------------ *)
(** * Answered flags and the counter *)
(* ------------------------------------------------------------------ *)














(* ------------------------------------------------------------------ *)
(** * A poll only grows *)
(* ------------------------------------------------------------------ *)

Lemma votes_le_refl l : Forall2 (fun o o' => votes o <= votes o') l l.
Proof. induction l; constructor; auto. lia. Qed.

Lemma grown_refl p : grown p p.
Proof. repeat split; auto using votes_le_refl. Qed.

Lemma vote_at_texts i l : map text (vote_at i l) = map text l.
Proof.
  revert i. induction l as [|o l IH]; intros i; [reflexivity|].
  destruct i; cbn; [reflexivity|]. rewrite IH. reflexivity.
Qed.

Lemma vote_at_flags i l : map isCorrect (vote_at i l) = map isCorrect l.
Proof.
  revert i. induction l as [|o l IH]; intros i; [reflexivity|].
  destruct i; cbn; [reflexivity|]. rewrite IH. reflexivity.
Qed.

Lemma vote_at_le i l :
  Forall2 (fun o o' => votes o <= votes o') l (vote_at i l).
Proof.
  revert i. induction l as [|o l IH]; intros i; [constructor|].
  destruct i; cbn; constructor; auto using votes_le_refl; cbn; lia.
Qed.

Lemma grown_vote p i : grown p (with_options p (vote_at i (options p))).
Proof.
  repeat split; cbn;
    auto using vote_at_texts, vote_at_flags, vote_at_le.
Qed.

Lemma grown_close p now : grown p (close_poll p now).
Proof. repeat split; cbn; auto using votes_le_refl. Qed.

Lemma votes_le_trans l1 l2 l3 :
  Forall2 (fun o o' => votes o <= votes o') l1 l2 ->
  Forall2 (fun o o' => votes o <= votes o') l2 l3 ->
  Forall2 (fun o o' => votes o <= votes o') l1 l3.
Proof.
  intros H. revert l3. induction H; intros l3 H3; inversion H3; subst;
    constructor; [lia|auto].
Qed.

Lemma grown_trans p1 p2 p3 : grown p1 p2 -> grown p2 p3 -> grown p1 p3.
Proof.
  intros (A1 & A2 & A3 & A4 & A5 & A6 & A7 & A8)
         (B1 & B2 & B3 & B4 & B5 & B6 & B7 & B8).
  repeat split; try congruence; eauto using votes_le_trans.
Qed.

Create HintDb growth.
#[local] Hint Resolve grown_refl grown_vote grown_close : growth.

Lemma handler_succession ev now w o :
  slot_id_known w -> poll_succession w (exec (handler ev now) w o).
Proof.
  intros H. unfold slot_id_known in H. open_world w. destruct o as [tr tw].
  cbn [currentActivePoll mem rt nextObjectId] in H.
  destruct ev; unfold_handlers.
  all: crunch; mred; unfold poll_succession;
    cbn [currentActivePoll mem rt nextObjectId].
  all: (split; [lia|]);
    try match goal with
        | |- match ?c with Some _ => _ | None => _ end => destruct c
        end; try exact I.
  all: cbn [_id close_poll with_options]; (split; [lia|]).
  all: try solve [left; eexists; split; [reflexivity|]; auto with growth].
  all: right; cbn; lia.
Qed.

Lemma succession_refl w : slot_id_known w -> poll_succession w w.
Proof.
  unfold slot_id_known, poll_succession. intros H. split; [lia|].
  destruct (currentActivePoll (mem w)) as [p|]; [|exact I].
  split; [exact H|]. left. exists p. auto using grown_refl.
Qed.

Lemma succession_trans w1 w2 w3 :
  poll_succession w1 w2 -> poll_succession w2 w3 -> poll_succession w1 w3.
Proof.
  unfold poll_succession. intros [Hn1 H1] [Hn2 H2]. split; [lia|].
  destruct (currentActivePoll (mem w3)) as [p3|]; [|exact I].
  destruct H2 as [Hb [[p2 [E2 G2]]|Hf]]; (split; [exact Hb|]).
  - rewrite E2 in H1. destruct H1 as [_ [[p1 [E1 G1]]|Hf]].
    + left. exists p1. split; [exact E1|]. eapply grown_trans; eauto.
    + right. destruct G2 as [Ei _]. lia.
  - right. lia.
Qed.

Lemma succession_known w w' :
  poll_succession w w' -> slot_id_known w'.
Proof.
  unfold poll_succession, slot_id_known. intros [_ H].
  destruct (currentActivePoll (mem w')); [apply H|exact I].
Qed.

Lemma run_succession inputs :
  forall w, slot_id_known w -> poll_succession w (run w inputs).
Proof.
  induction inputs as [|i inputs IH]; intros w H; cbn.
  - apply succession_refl, H.
  - assert (Hs : poll_succession w (step w i)).
    { unfold step. destruct (enabled (in_event i) w);
        [apply handler_succession|apply succession_refl]; exact H. }
    eapply succession_trans; [exact Hs|].
    apply IH. eapply succession_known, Hs.
Qed.

(** X7.  From a reachable state on, whatever the store does: as long as
    the slot holds the poll with the same id, its question, duration,
    start time and options (texts and correctness flags, in order) are
    what they were, no vote count is lower than it was, and a poll once
    marked completed is not active again.  So the slot never shows two
    different polls under one id. *)
Theorem poll_only_grows :
  forall w inputs p p',
    reachable w ->
    currentActivePoll (mem w) = Some p ->
    currentActivePoll (mem (run w inputs)) = Some p' ->
    _id p' = _id p ->
    grown p p'.
Proof.
  intros w inputs p p' [pre ->] Hp Hp' Hid.
  assert (Hk : slot_id_known (run initial pre))
    by (eapply succession_known, run_succession; exact I).
  pose proof (run_succession inputs _ Hk) as [_ Hs].
  rewrite Hp' in Hs. destruct Hs as [_ [[p0 [E G]]|Hf]].
  - rewrite Hp in E. injection E as <-. exact G.
  - unfold slot_id_known in Hk. rewrite Hp in Hk. lia.
Qed.

Lemma poll_only_grows_witness :
  reachable poll_open
  /\ grown open_poll
       (mkPoll 0%nat "2+2?" [mkOption "4" true 1; mkOption "5" false 0]
               30 active 6 None).
Proof.
  assert (Hr : reachable poll_open) by (exists classroom; reflexivity).
  split; [exact Hr|].
  exact (poll_only_grows poll_open [at_ 7 (EvSubmitAnswer "a" 0%nat "A" "4")]
           open_poll _ Hr eq_refl eq_refl eq_refl).
Defined.

(* ------------------------------------------------------------------ *)
(** * Who receives what *)
(* ------------------------------------------------------------------ *)

(** X8.  Whatever the state and whatever the store does, the messages a
    step sends are added after those already sent, and among them every
    error notice and every kick confirmation is addressed to the socket
    the event arrived on and to no other (a timer expiry sends none),
    while every result update, final snapshot and presence list is
    broadcast. *)
Theorem notices_reach_the_caller_only :
  forall w i,
    exists new,
      emitted (step w i) = emitted w ++ new
      /\ Forall (well_addressed (event_socket (in_event i))) new.
Proof.
  intros w [ev now o]. unfold step. cbn [in_event in_now in_oracle].
  destruct (enabled ev w);
    [|exists []; split; [symmetry; apply app_nil_r|constructor]].
  open_world w. destruct o as [tr tw].
  destruct ev; unfold_handlers.
  all: crunch; mred; cbn [event_socket].
  all: try (exists []; split; [symmetry; apply app_nil_r|constructor]).
  all: rewrite <- ?app_assoc; eexists; (split; [reflexivity|]).
  all: cbn [app]; repeat constructor; cbn; eauto.
Qed.

(* ------------------------------------------------------------------ *)
(** * Closing, then opening the next poll *)
(* ------------------------------------------------------------------ *)

Lemma on_endPoll_quiet w o sock now p :
  currentActivePoll (mem w) = Some p ->
  quiet o ->
  exec (on_endPoll sock (_id p) now) w o = poll_closed w p now.
Proof.
  intros Hcur [Hr Hw]. open_world w. destruct o as [tr tw].
  cbn in Hcur, Hr, Hw. subst cur.
  unfold on_endPoll, endPoll, poll_closed. mred.
  rewrite Nat.eqb_refl. cbn [negb].
  crunch; try reflexivity.
  all: rewrite <- app_assoc; reflexivity.
Qed.

Lemma reset_all_unmarked f l :
  Forall (fun st => hasAnswered st = false)
         (update_all f (set_hasAnswered false)
            (update_all (fun _ => true) (set_hasAnswered false) l)).
Proof.
  unfold update_all. induction l as [|x l IH]; cbn; constructor; auto.
  destruct (f _); reflexivity.
Qed.

(** X10.  From a reachable state with a poll in the slot, while the store
    answers: an [endPoll] message for that poll followed by a [createPoll]
    always opens the new poll.  The new poll sits in the slot with every
    vote count at zero, the answered counter is zero, no respondent is
    marked as having answered, and exactly one timer is armed, with the
    delay Node arms for the new duration in milliseconds (the duration
    times 1000 when that lies between 1 and 2^31 - 1, and 1 otherwise). *)
Theorem close_then_create_starts_afresh :
  forall w p sock sock' pd now now' o o',
    reachable w ->
    currentActivePoll (mem w) = Some p ->
    quiet o ->
    quiet o' ->
    let w1 := exec (on_endPoll sock (_id p) now) w o in
    let w2 := exec (createPoll sock' pd now') w1 o' in
    currentActivePoll (mem w2) = Some (new_poll w pd now')
    /\ vote_counts w2 = map (fun _ => 0) (pd_options pd)
    /\ answeredStudentsCount (mem w2) = 0
    /\ Forall (fun st => hasAnswered st = false) (students (store w2))
    /\ timers (rt w2)
       = [(nextTimer (rt w), timer_delay (pd_duration pd * 1000))]
    /\ pollTimer (mem w2) = Some (nextTimer (rt w)).
Proof.
  intros w p sock sock' pd now now' o o' Hr Hp Ho Ho' w1 w2.
  subst w2 w1.
  rewrite (on_endPoll_quiet w o sock now p Hp Ho).
  rewrite (createPoll_quiet (poll_closed w p now) o' sock' pd now'
             eq_refl Ho').
  pose proof (reachable_timer_inv w Hr) as Ht.
  unfold timer_inv in Ht. open_world w. cbn in Hp. subst cur.
  unfold poll_created, poll_closed, new_poll, vote_counts.
  cbn [currentActivePoll mem answeredStudentsCount students store rt timers
       nextTimer nextObjectId pollTimer options] in *.
  repeat split.
  - rewrite map_map. reflexivity.
  - apply reset_all_unmarked.
  - destruct ti as [|[h d] [|? ?]]; [| |contradiction].
    + destruct tm; reflexivity.
    + destruct Ht as [-> _]. cbn. rewrite Nat.eqb_refl. reflexivity.
Qed.

Lemma close_then_create_starts_afresh_witness :
  reachable after_first_vote
  /\ quiet no_faults
  /\ vote_counts
       (exec (createPoll "t" two_plus_two 9)
             (exec (on_endPoll "t" 0%nat 8) after_first_vote no_faults)
             no_faults)
     = [0; 0].
Proof.
  assert (Hr : reachable after_first_vote) by (exists first_vote; reflexivity).
  assert (Hq : quiet no_faults) by (split; reflexivity).
  split; [exact Hr|]. split; [exact Hq|].
  destruct (close_then_create_starts_afresh after_first_vote _ "t" "t"
              two_plus_two 8 9 no_faults no_faults Hr eq_refl Hq Hq)
    as [_ [H _]].
  exact H.
Defined.

(* ------------------------------------------------------------------ *)
(** * Percentages for classes of up to two hundred *)
(* ------------------------------------------------------------------ *)

Lemma percentage_close_spec v t :
  percentage_close v t = true ->
  Js.percentage v t = Js.of_int (Js.exact_percentage v t)
  \/ ((200 * v + t) mod (2 * t) = 0
      /\ Js.percentage v t = Js.of_int (Js.exact_percentage v t - 1)).
Proof.
  unfold percentage_close. intros H. apply orb_prop in H.
  destruct H as [H|H]; [left; apply same_float_eq, H|].
  apply andb_prop in H. destruct H as [Hm H]. right.
  split; [apply Z.eqb_eq, Hm|apply same_float_eq, H].
Qed.

Lemma percentages_close_upto_spec n :
  percentages_close_upto n = true ->
  forall v t,
    0 <= v <= t ->
    0 < t <= Z.of_nat n ->
    percentage_close v t = true.
Proof.
  unfold percentages_close_upto. intros H v t Hv Ht.
  rewrite forallb_forall in H.
  specialize (H (Z.to_nat t) ltac:(apply in_seq; lia)).
  rewrite forallb_forall in H.
  specialize (H (Z.to_nat v) ltac:(apply in_seq; lia)).
  rewrite !Z2Nat.id in H by lia. exact H.
Qed.

Lemma percentages_close_upto_200 : percentages_close_upto 200 = true.
Proof. vm_compute. reflexivity. Qed.

(** X11.  For every way of splitting up to 200 votes, the percentage the
    server computes, [Math.round((votes / total) * 100)] in doubles, is a
    whole number between 0 and 100; it is the exact ratio rounded to the
    nearest integer, except that at an exact half it can be one lower. *)
Theorem percentage_within_one_of_exact :
  forall v t,
    0 <= v <= t ->
    0 < t <= 200 ->
    exists k,
      Js.percentage v t = Js.of_int k
      /\ 0 <= k <= 100
      /\ (k = Js.exact_percentage v t
          \/ (k = Js.exact_percentage v t - 1
              /\ (200 * v + t) mod (2 * t) = 0)).
Proof.
  intros v t Hv Ht.
  assert (H : percentage_close v t = true).
  { apply (percentages_close_upto_spec 200 percentages_close_upto_200);
      [exact Hv|]. change (Z.of_nat 200) with 200. exact Ht. }
  assert (Hlo : 0 <= Js.exact_percentage v t)
    by (unfold Js.exact_percentage; apply Z.div_pos; lia).
  assert (Hhi : Js.exact_percentage v t <= 100).
  { unfold Js.exact_percentage.
    assert ((200 * v + t) / (2 * t) < 101)
      by (apply Z.div_lt_upper_bound; lia).
    lia. }
  destruct (percentage_close_spec v t H) as [E|[Hm E]].
  - exists (Js.exact_percentage v t). auto.
  - exists (Js.exact_percentage v t - 1). split; [exact E|].
    split; [|right; auto].
    assert (0 < Js.exact_percentage v t).
    { unfold Js.exact_percentage in *.
      apply Z.div_exact in Hm; [|lia].
      destruct (Z.eq_dec ((200 * v + t) / (2 * t)) 0) as [Z0|]; [|lia].
      rewrite Z0 in Hm. lia. }
    lia.
Qed.

Lemma percentage_within_one_of_exact_witness :
  0 <= 23 <= 40
  /\ 0 < 40 <= 200
  /\ exists k, Js.percentage 23 40 = Js.of_int k /\ 0 <= k <= 100.
Proof.
  assert (Hv : 0 <= 23 <= 40) by lia.
  assert (Ht : 0 < 40 <= 200) by lia.
  split; [exact Hv|]. split; [exact Ht|].
  destruct (percentage_within_one_of_exact 23 40 Hv Ht) as [k [E [B _]]].
  exists k. split; assumption.
Defined.

(* ------------------------------------------------------------------ *)
(** * Going offline, joining twice *)
(* ------------------------------------------------------------------ *)

Lemma carrying_update_first sock now l :
  List.length
    (carrying sock
       (update_first
          (fun st => opt_string_eqb (socketId st) (Some sock))
          (fun st => mkStudent None (studentId st) (name st) now
                               (hasAnswered st) (kicked st)) l))
  = pred (List.length (carrying sock l)).
Proof.
  unfold carrying. induction l as [|x l IH]; cbn; [reflexivity|].
  destruct (opt_string_eqb (socketId x) (Some sock)) eqn:E; cbn.
  - reflexivity.
  - rewrite E. exact IH.
Qed.

Lemma In_update_first_other (f : Student -> bool) g st l :
  In st l -> f st = false -> In st (update_first f g l).
Proof.
  induction l as [|x l IH]; cbn; [tauto|].
  intros [->|Hin] Hf.
  - rewrite Hf. left. reflexivity.
  - destruct (f x); [right; exact Hin|right; apply IH; assumption].
Qed.

(** X14.  A disconnection whose store write succeeds takes the socket id
    off one record only: the number of records carrying the socket goes
    down by one, or stays at zero.  So a respondent whose socket joined
    under one id is offline afterwards, while of two records left by one
    socket that joined under two ids one still counts as connected.  The
    records that do not carry the socket stay as they are, the ids on file
    and the memory are unchanged, and the socket is gone from the
    connected ones. *)
Theorem disconnect_marks_one_record_offline :
  forall w sock now o,
    hd false (wr o) = false ->
    let w' := exec (close_socket sock now) w o in
    List.length (carrying sock (students (store w')))
    = pred (List.length (carrying sock (students (store w))))
    /\ (forall st,
           In st (students (store w)) ->
           opt_string_eqb (socketId st) (Some sock) = false ->
           In st (students (store w')))
    /\ ids w' = ids w
    /\ mem w' = mem w
    /\ is_connected sock w' = false.
Proof.
  intros w sock now [tr tw] Hw w'. subst w'. cbn [wr] in Hw.
  open_world w. unfold ids, is_connected, find_socket.
  unfold close_socket, disconnect.
  assert (Hs : forall l,
             find (fun s => String.eqb (sock_id s) sock)
                  (filter (fun s => negb (String.eqb (sock_id s) sock)) l)
             = None).
  { induction l as [|x l IH]; cbn; [reflexivity|].
    destruct (String.eqb (sock_id x) sock) eqn:E; cbn; rewrite ?E; exact IH. }
  destruct tw as [|b tw]; cbn in Hw; subst;
    crunch; cbn [students store mem rt sockets];
    rewrite carrying_update_first, Hs,
      ids_update_first by (intros []; reflexivity);
    repeat split;
    intros st Hin Hc; apply In_update_first_other; assumption.
Qed.

Lemma disconnect_marks_one_record_offline_witness :
  hd false (wr no_faults) = false
  /\ List.length
       (carrying "a"
          (students (store (exec (close_socket "a" 8) poll_open no_faults))))
     = 0%nat.
Proof.
  split; [reflexivity|].
  exact (proj1 (disconnect_marks_one_record_offline poll_open "a" 8
                  no_faults eq_refl)).
Defined.

Lemma upsert_idem st l :
  upsert_student st (upsert_student st l) = upsert_student st l.
Proof.
  induction l as [|x l IH]; cbn.
  - unfold has_studentId. rewrite String.eqb_refl. reflexivity.
  - destruct (has_studentId (studentId st) x) eqn:E; cbn.
    + unfold has_studentId. rewrite String.eqb_refl. reflexivity.
    + rewrite E, IH. reflexivity.
Qed.

Lemma bind_idem sock sid (l : list Socket) :
  update_all (fun s => String.eqb (sock_id s) sock)
             (fun s => mkSocket (sock_id s) (Some sid))
    (update_all (fun s => String.eqb (sock_id s) sock)
                (fun s => mkSocket (sock_id s) (Some sid)) l)
  = update_all (fun s => String.eqb (sock_id s) sock)
               (fun s => mkSocket (sock_id s) (Some sid)) l.
Proof.
  unfold update_all. rewrite map_map. apply map_ext. intros x.
  destruct (String.eqb (sock_id x) sock) eqn:E; cbn; rewrite E; reflexivity.
Qed.

Lemma studentJoin_quiet_state w o sock nm sid now :
  quiet o ->
  store (exec (studentJoin sock nm sid now) w o)
  = (if Student_validate (joined_record w sock nm sid now) then
       mkStore (upsert_student (joined_record w sock nm sid now)
                               (students (store w)))
               (polls (store w))
     else store w)
  /\ mem (exec (studentJoin sock nm sid now) w o) = mem w
  /\ rt (exec (studentJoin sock nm sid now) w o)
     = mkRuntime
         (update_all (fun s => String.eqb (sock_id s) sock)
                     (fun s => mkSocket (sock_id s) (Some sid))
                     (sockets (rt w)))
         (timers (rt w)) (nextTimer (rt w)) (nextObjectId (rt w)).
Proof.
  intros [Hr Hw]. destruct o as [tr tw]. cbn [rd wr] in Hr, Hw.
  open_world w. unfold joined_record, lookup. cbn [students store polls].
  unfold studentJoin.
  crunch; cbn [store mem rt].
  all: try match goal with
           | H : find (has_studentId _) _ = Some ?s |- _ =>
               let E := fresh "E" in
               pose proof (find_has_studentId _ _ _ H) as E;
               apply String.eqb_eq in E; rewrite ?E in *
           end.
  all: try congruence.
  all: repeat split.
Qed.

(** X15.  While the store answers, joining again on the same socket under
    the same id at the same time changes nothing more: store, memory and
    runtime are as after the first join. *)
Theorem join_is_idempotent :
  forall w sock nm sid now o o',
    quiet o ->
    quiet o' ->
    let w1 := exec (studentJoin sock nm sid now) w o in
    let w2 := exec (studentJoin sock nm sid now) w1 o' in
    store w2 = store w1 /\ mem w2 = mem w1 /\ rt w2 = rt w1.
Proof.
  intros w sock nm sid now o o' Ho Ho' w1 w2. subst w2 w1.
  destruct (studentJoin_quiet_state w o sock nm sid now Ho)
    as [Es [Em Er]].
  destruct (studentJoin_quiet_state
              (exec (studentJoin sock nm sid now) w o) o' sock nm sid now Ho')
    as [Es' [Em' Er']].
  rewrite Es', Em', Er'. rewrite Em. rewrite Er.
  cbn [sockets timers nextTimer nextObjectId].
  rewrite bind_idem. split; [|split; reflexivity].
  assert (Hj : joined_record (exec (studentJoin sock nm sid now) w o)
                 sock nm sid now
               = joined_record w sock nm sid now).
  { destruct (Student_validate (joined_record w sock nm sid now)).
    - assert (Hl : lookup sid (exec (studentJoin sock nm sid now) w o)
                   = Some (joined_record w sock nm sid now)).
      { unfold lookup. rewrite Es. cbn [students]. apply find_upsert.
        unfold joined_record. destruct (lookup sid w);
          unfold has_studentId; cbn; apply String.eqb_refl. }
      unfold joined_record at 1. rewrite Hl.
      unfold joined_record. destruct (lookup sid w); reflexivity.
    - unfold joined_record, lookup. rewrite Es. reflexivity. }
  rewrite Hj, Es.
  destruct (Student_validate (joined_record w sock nm sid now));
    [cbn [students polls]; rewrite upsert_idem|]; reflexivity.
Qed.

Lemma join_is_idempotent_witness :
  quiet no_faults
  /\ store (exec (studentJoin "a" "Ann" "A" 7)
                 (exec (studentJoin "a" "Ann" "A" 7) poll_open no_faults)
                 no_faults)
     = store (exec (studentJoin "a" "Ann" "A" 7) poll_open no_faults).
Proof.
  assert (Hq : quiet no_faults) by (split; reflexivity).
  split; [exact Hq|].
  exact (proj1 (join_is_idempotent poll_open "a" "Ann" "A" 7 no_faults
                  no_faults Hq Hq)).
Defined.

(* ------------------------------------------------------------------ *)
(** * A kick never takes effect *)
(* ------------------------------------------------------------------ *)

Lemma kick_record_refused sid nm seen ans k :
  Student_validate (mkStudent None sid nm seen ans k) = false.
Proof. reflexivity. Qed.

(** X16.  Whatever the state and whatever the store does, [kickStudent]
    changes nothing: the record it wants to save has its socket id cleared,
    which the schema refuses, so the store, the memory and the connections
    are as before, nobody is disconnected, and the caller alone gets a
    notice, "Student not found." or "Failed to kick student.". *)
Theorem kick_never_takes_effect :
  forall w sock sid now o,
    exists msg,
      (msg = msg_not_found \/ msg = msg_kick_failed)
      /\ exec (kickStudent sock sid now) w o
         = sending w [(to_socket sock, error msg)].
Proof.
  intros w sock sid now [tr tw]. open_world w. unfold kickStudent.
  crunch; rewrite ?kick_record_refused in *; try discriminate; mred;
    eexists; (split; [|reflexivity]); auto.
Qed.
